(** * Flow-control capacity accounting (src/overlay/FlowControlCapacity.cpp)

    A shallow embedding of the per-peer capacity ledger of the overlay:
    the base class [FlowControlCapacity] and its two subclasses,
    [FlowControlMessageCapacity] (one unit per message) and
    [FlowControlByteCapacity] (serialized bytes per message).

    Conventions.
    - [uint64_t] and [size_t] values are integers of [Z] in [0, 2^64); every
      C++ [+=] and [-=] on them is written with its wrap-around ([add64],
      [sub64]).
    - [releaseAssert] aborts the process.  An aborted call is the value
      [Abort]; a call that returns is [Ok] of its return value (and, for a
      method that mutates the object, of the object afterwards).
    - [ZoneScoped] and [CLOG_DEBUG] only trace and log; they do not touch the
      object and are left out.  Where the condition of a log statement calls
      a method that can abort, the call is kept. *)

From Stdlib Require Import ZArith List Bool Lia.
Import ListNotations.
Local Open Scope Z_scope.

Set Implicit Arguments.

(** ** Unsigned 64-bit arithmetic *)

Definition u64 (x : Z) : Z := x mod 2 ^ 64.
Definition add64 (a b : Z) : Z := u64 (a + b).
Definition sub64 (a b : Z) : Z := u64 (a - b).
Definition is_u64 (x : Z) : Prop := 0 <= x < 2 ^ 64.
Definition is_u32 (x : Z) : Prop := 0 <= x < 2 ^ 32.

(** ** Calls that may hit a fatal assertion *)

Inductive result (A : Type) : Type :=
| Ok (a : A)
| Abort.
Arguments Abort {A}.

(** A [const] method reads the object: [S -> result A].  A mutating method
    is an [Op S A]: from the object before to the value returned and the
    object after, unless an assertion fires on the way. *)
Definition Op (S A : Type) : Type := S -> result (A * S).

Definition ret {S A} (a : A) : Op S A := fun s => Ok (a, s).

Definition bind {S A B} (c : Op S A) (k : A -> Op S B) : Op S B :=
  fun s => match c s with
           | Ok (a, s') => k a s'
           | Abort => Abort
           end.

Definition get {S} : Op S S := fun s => Ok (s, s).
Definition modify {S} (f : S -> S) : Op S unit := fun s => Ok (tt, f s).

(** Calling a [const] method from a mutating one. *)
Definition call {S A} (f : S -> result A) : Op S A :=
  fun s => match f s with
           | Ok a => Ok (a, s)
           | Abort => Abort
           end.

Definition releaseAssert {S} (b : bool) : Op S unit :=
  fun s => if b then Ok (tt, s) else Abort.

Declare Scope op_scope.
Delimit Scope op_scope with op.
Notation "x <- c ;; k" := (bind c (fun x => k))
  (at level 61, c at next level, right associativity) : op_scope.
Notation "c ;; k" := (bind c (fun _ => k))
  (at level 61, right associativity) : op_scope.
Local Open Scope op_scope.

(** ** Messages and the collaborators of the ledger *)

(** [MessageType]: the discriminator of a [StellarMessage].  This file names
    two of its members; [OTHER_MESSAGE] stands for the rest of the enum,
    by discriminator value. *)
Inductive MessageType : Type :=
| SEND_MORE
| SEND_MORE_EXTENDED
| OTHER_MESSAGE (discriminator : Z).

Definition isSendMore (t : MessageType) : bool :=
  match t with SEND_MORE => true | _ => false end.

Definition isSendMoreExtended (t : MessageType) : bool :=
  match t with SEND_MORE_EXTENDED => true | _ => false end.

(** What the ledger asks of a message.  The message type itself, its XDR
    size and the decoding of a credit grant live outside this file, so they
    are the operations of a class over an arbitrary message type. *)
Class StellarMessageOps (StellarMessage : Type) : Type := {
  (** [msg.type()] *)
  type : StellarMessage -> MessageType;
  (** [msg.sendMoreExtendedMessage().numBytes] *)
  numBytes : StellarMessage -> Z;
  (** [FlowControl::getNumMessages(msg)] *)
  getNumMessages : StellarMessage -> Z;
  (** [xdr::xdr_size(msg)] *)
  xdr_size : StellarMessage -> Z;
  (** [xdr::xdr_size(msg.type())] *)
  xdr_size_type : MessageType -> Z
}.

(** [mApp.getConfig()] *)
Record Config : Type := {
  PEER_FLOOD_READING_CAPACITY : Z;
  PEER_READING_CAPACITY : Z;
  OVERLAY_PROTOCOL_VERSION : Z
}.

(** [Application& mApp], with the one constant of [Peer] the file reads. *)
Record Application (StellarMessage : Type) : Type := {
  getConfig : Config;
  (** [getOverlayManager().isFloodMessage(msg)] *)
  isFloodMessage : StellarMessage -> bool;
  (** [getOverlayManager().getFlowControlBytesConfig().mTotal] *)
  flowControlBytesTotal : Z;
  (** [Peer::FIRST_VERSION_UPDATED_FLOW_CONTROL_ACCOUNTING] *)
  FIRST_VERSION_UPDATED_FLOW_CONTROL_ACCOUNTING : Z
}.

(** ** The ledger *)

(** [FlowControlCapacity::ReadingCapacity] *)
Record ReadingCapacity : Type := {
  mFloodCapacity : Z;
  mTotalCapacity : option Z
}.

(** An object of a subclass of [FlowControlCapacity]: the members of the
    base class and, in [self], the members the subclass [D] adds.
    ([mNodeID] is only printed.) *)
Record FlowControlCapacity (StellarMessage D : Type) : Type := {
  mApp : Application StellarMessage;
  mCapacity : ReadingCapacity;
  mOutboundCapacity : Z;
  self : D
}.

Definition setCapacity {M D} (c : ReadingCapacity)
    (s : FlowControlCapacity M D) : FlowControlCapacity M D :=
  {| mApp := mApp s; mCapacity := c;
     mOutboundCapacity := mOutboundCapacity s; self := self s |}.

Definition setFloodCapacity {M D} (v : Z)
    (s : FlowControlCapacity M D) : FlowControlCapacity M D :=
  setCapacity {| mFloodCapacity := v;
                 mTotalCapacity := mTotalCapacity (mCapacity s) |} s.

Definition setTotalCapacity {M D} (v : option Z)
    (s : FlowControlCapacity M D) : FlowControlCapacity M D :=
  setCapacity {| mFloodCapacity := mFloodCapacity (mCapacity s);
                 mTotalCapacity := v |} s.

Definition setOutboundCapacity {M D} (v : Z)
    (s : FlowControlCapacity M D) : FlowControlCapacity M D :=
  {| mApp := mApp s; mCapacity := mCapacity s;
     mOutboundCapacity := v; self := self s |}.

Definition setSelf {M D} (d : D)
    (s : FlowControlCapacity M D) : FlowControlCapacity M D :=
  {| mApp := mApp s; mCapacity := mCapacity s;
     mOutboundCapacity := mOutboundCapacity s; self := d |}.

(** Modelled from the spec: the initial value of [mOutboundCapacity] is set
    in the class declaration, which is outside this file; the outbound
    capacity counter "starts at zero". *)
Definition initialOutboundCapacity : Z := 0.

(** The two pure virtual [const] methods the base class calls.  Both
    overrides read the application and the subclass's own members only. *)
Class CapacityStrategy (StellarMessage D : Type) : Type := {
  getMsgResourceCount :
    Application StellarMessage -> D -> StellarMessage -> result Z;
  getCapacityLimits : Application StellarMessage -> D -> ReadingCapacity
}.

(** [getMsgResourceCount] returns a [uint64_t]: what an override computes
    is in range. *)
Class CapacityStrategyLaws {StellarMessage D : Type}
    (strategy : CapacityStrategy StellarMessage D) : Prop := {
  getMsgResourceCount_u64 :
    forall app d msg c, getMsgResourceCount app d msg = Ok c -> is_u64 c
}.

Section Base.
Context {StellarMessage D : Type}.
Context `{StellarMessageOps StellarMessage}.
Context `{CapacityStrategy StellarMessage D}.

Local Abbreviation Ledger := (FlowControlCapacity StellarMessage D).

(** The virtual calls [getMsgResourceCount(msg)] and [getCapacityLimits()]
    on the object [s]. *)
Definition msgResourceCount (msg : StellarMessage) (s : Ledger) : result Z :=
  getMsgResourceCount (mApp s) (self s) msg.

Definition capacityLimits (s : Ledger) : ReadingCapacity :=
  getCapacityLimits (mApp s) (self s).

(** [FlowControlCapacity::checkCapacityInvariants] *)
Definition checkCapacityInvariants (s : Ledger) : result unit :=
  if mFloodCapacity (mCapacity s) <=? mFloodCapacity (capacityLimits s) then
    match mTotalCapacity (capacityLimits s) with
    | Some limit =>
        match mTotalCapacity (mCapacity s) with
        | Some total => if total <=? limit then Ok tt else Abort
        | None => Abort
        end
    | None =>
        match mTotalCapacity (mCapacity s) with
        | Some _ => Abort
        | None => Ok tt
        end
    end
  else Abort.

(** [FlowControlCapacity::hasOutboundCapacity] *)
Definition hasOutboundCapacity (msg : StellarMessage) (s : Ledger)
  : result bool :=
  match msgResourceCount msg s with
  | Ok c => Ok (c <=? mOutboundCapacity s)
  | Abort => Abort
  end.

(** [FlowControlCapacity::lockOutboundCapacity] *)
Definition lockOutboundCapacity (msg : StellarMessage) : Op Ledger unit :=
  s <- get ;;
  if isFloodMessage (mApp s) msg then
    has <- call (hasOutboundCapacity msg) ;;
    releaseAssert has ;;
    c <- call (msgResourceCount msg) ;;
    modify (fun s => setOutboundCapacity (sub64 (mOutboundCapacity s) c) s)
  else ret tt.

(** [FlowControlCapacity::lockLocalCapacity] *)
Definition lockLocalCapacity (msg : StellarMessage) : Op Ledger bool :=
  call checkCapacityInvariants ;;
  msgResources <- call (msgResourceCount msg) ;;
  s <- get ;;
  match mTotalCapacity (mCapacity s) with
  | Some total =>
      releaseAssert (msgResources <=? total) ;;
      modify (setTotalCapacity (Some (sub64 total msgResources)))
  | None => ret tt
  end ;;
  s <- get ;;
  if isFloodMessage (mApp s) msg then
    if mFloodCapacity (mCapacity s) <? msgResources then
      (* No capacity to process flood message *)
      ret false
    else
      modify (setFloodCapacity
                (sub64 (mFloodCapacity (mCapacity s)) msgResources)) ;;
      ret true
  else ret true.

(** [FlowControlCapacity::releaseLocalCapacity] *)
Definition releaseLocalCapacity (msg : StellarMessage) : Op Ledger Z :=
  resourcesFreed <- call (msgResourceCount msg) ;;
  s <- get ;;
  match mTotalCapacity (mCapacity s) with
  | Some total => modify (setTotalCapacity (Some (add64 total resourcesFreed)))
  | None => ret tt
  end ;;
  s <- get ;;
  releasedFloodCapacity <-
    (if isFloodMessage (mApp s) msg then
       modify (setFloodCapacity
                 (add64 (mFloodCapacity (mCapacity s)) resourcesFreed)) ;;
       ret resourcesFreed
     else ret 0) ;;
  call checkCapacityInvariants ;;
  ret releasedFloodCapacity.

(** [FlowControlCapacity::msgBodySize] (static).  [threshold] is
    [Peer::FIRST_VERSION_UPDATED_FLOW_CONTROL_ACCOUNTING]. *)
Definition msgBodySize (threshold : Z) (msg : StellarMessage)
    (remoteVersion localVersion : Z) : Z :=
  if (threshold <=? remoteVersion) && (threshold <=? localVersion)
  then u64 (xdr_size msg - xdr_size_type (type msg))
  else u64 (xdr_size msg).

End Base.

(** ** Count-based strategy *)

Module FlowControlMessageCapacity.

(** The subclass adds no data member. *)
Inductive Fields : Type := NoFields.

Section Methods.
Context {StellarMessage : Type}.
Context `{StellarMessageOps StellarMessage}.

Local Abbreviation Ledger := (FlowControlCapacity StellarMessage Fields).

(** [FlowControlMessageCapacity::getMsgResourceCount]:
    each message takes one unit of capacity. *)
Definition getMsgResourceCount (app : Application StellarMessage)
    (d : Fields) (msg : StellarMessage) : result Z :=
  Ok 1.

(** [FlowControlMessageCapacity::getCapacityLimits] *)
Definition getCapacityLimits (app : Application StellarMessage)
    (d : Fields) : ReadingCapacity :=
  {| mFloodCapacity := PEER_FLOOD_READING_CAPACITY (getConfig app);
     mTotalCapacity := Some (PEER_READING_CAPACITY (getConfig app)) |}.

#[global] Instance message_strategy
  : CapacityStrategy StellarMessage Fields :=
  Build_CapacityStrategy getMsgResourceCount getCapacityLimits.

(** The constructor: [mCapacity = getCapacityLimits()]. *)
Definition create (app : Application StellarMessage) : Ledger :=
  {| mApp := app;
     mCapacity := getCapacityLimits app NoFields;
     mOutboundCapacity := initialOutboundCapacity;
     self := NoFields |}.

(** [FlowControlMessageCapacity::releaseOutboundCapacity].  The call of
    [hasOutboundCapacity] is the condition of the log statement. *)
Definition releaseOutboundCapacity (msg : StellarMessage) : Op Ledger unit :=
  releaseAssert (isSendMore (type msg) || isSendMoreExtended (type msg)) ;;
  let numMessages := getNumMessages msg in
  _ <- call (hasOutboundCapacity msg) ;;
  modify (fun s =>
            setOutboundCapacity (add64 (mOutboundCapacity s) numMessages) s).

(** [FlowControlMessageCapacity::canRead] *)
Definition canRead (s : Ledger) : result bool :=
  match mTotalCapacity (mCapacity s) with
  | Some total => Ok (0 <? total)
  | None => Abort
  end.

End Methods.

End FlowControlMessageCapacity.

(** ** Byte-based strategy *)

Module FlowControlByteCapacity.

(** The data members the subclass adds. *)
Record Fields : Type := {
  mCapacityLimits : ReadingCapacity;
  mRemoteOverlayVersion : Z
}.

Section Methods.
Context {StellarMessage : Type}.
Context `{StellarMessageOps StellarMessage}.

Local Abbreviation Ledger := (FlowControlCapacity StellarMessage Fields).

(** [FlowControlByteCapacity::getCapacityLimits] *)
Definition getCapacityLimits (app : Application StellarMessage)
    (d : Fields) : ReadingCapacity :=
  mCapacityLimits d.

(** [FlowControlByteCapacity::getMsgResourceCount] *)
Definition getMsgResourceCount (app : Application StellarMessage)
    (d : Fields) (msg : StellarMessage) : result Z :=
  if mRemoteOverlayVersion d =? 0 then Abort
  else Ok (msgBodySize (FIRST_VERSION_UPDATED_FLOW_CONTROL_ACCOUNTING app)
             msg (mRemoteOverlayVersion d)
             (OVERLAY_PROTOCOL_VERSION (getConfig app))).

#[global] Instance byte_strategy : CapacityStrategy StellarMessage Fields :=
  Build_CapacityStrategy getMsgResourceCount getCapacityLimits.

(** The constructor: the limits are [{mTotal, std::nullopt}] and the live
    capacity starts at the limits. *)
Definition create (app : Application StellarMessage) (remoteVersion : Z)
  : Ledger :=
  let limits := {| mFloodCapacity := flowControlBytesTotal app;
                   mTotalCapacity := None |} in
  {| mApp := app;
     mCapacity := limits;
     mOutboundCapacity := initialOutboundCapacity;
     self := {| mCapacityLimits := limits;
                mRemoteOverlayVersion := remoteVersion |} |}.

(** [FlowControlByteCapacity::releaseOutboundCapacity].  The call of
    [hasOutboundCapacity] is the condition of the log statement. *)
Definition releaseOutboundCapacity (msg : StellarMessage) : Op Ledger unit :=
  releaseAssert (isSendMoreExtended (type msg)) ;;
  _ <- call (hasOutboundCapacity msg) ;;
  modify (fun s =>
            setOutboundCapacity (add64 (mOutboundCapacity s) (numBytes msg)) s).

(** [FlowControlByteCapacity::canRead] *)
Definition canRead (s : Ledger) : result bool :=
  match mTotalCapacity (mCapacity s) with
  | Some _ => Abort
  | None => Ok true
  end.

(** [mCapacityLimits.mFloodCapacity += increase] *)
Definition raiseFloodLimit (increase : Z) (d : Fields) : Fields :=
  {| mCapacityLimits :=
       {| mFloodCapacity :=
            add64 (mFloodCapacity (mCapacityLimits d)) increase;
          mTotalCapacity := mTotalCapacity (mCapacityLimits d) |};
     mRemoteOverlayVersion := mRemoteOverlayVersion d |}.

(** [FlowControlByteCapacity::handleTxSizeIncrease] *)
Definition handleTxSizeIncrease (increase : Z) : Op Ledger unit :=
  modify (fun s =>
            setFloodCapacity
              (add64 (mFloodCapacity (mCapacity s)) increase) s) ;;
  modify (fun s => setSelf (raiseFloodLimit increase (self s)) s).

End Methods.

End FlowControlByteCapacity.

(** ** Sequences of calls *)

Section Traces.
Context {StellarMessage D : Type}.
Context `{StellarMessageOps StellarMessage}.
Context `{CapacityStrategy StellarMessage D}.

Local Abbreviation Ledger := (FlowControlCapacity StellarMessage D).

(** The fields of the live capacity hold [uint64_t] values. *)
Definition capacity_u64 (s : Ledger) : Prop :=
  is_u64 (mFloodCapacity (mCapacity s)) /\
  forall total, mTotalCapacity (mCapacity s) = Some total -> is_u64 total.

(** [lockLocalCapacity] on each message of a list in turn; the answers. *)
Fixpoint lockAll (msgs : list StellarMessage) : Op Ledger (list bool) :=
  match msgs with
  | [] => ret []
  | msg :: rest =>
      b <- lockLocalCapacity msg ;;
      bs <- lockAll rest ;;
      ret (b :: bs)
  end.

(** The object after [releaseLocalCapacity] gave [c] units back, before the
    closing check of the invariants. *)
Definition released (msg : StellarMessage) (c : Z) (s : Ledger) : Ledger :=
  setCapacity
    {| mFloodCapacity :=
         if isFloodMessage (mApp s) msg
         then add64 (mFloodCapacity (mCapacity s)) c
         else mFloodCapacity (mCapacity s);
       mTotalCapacity :=
         match mTotalCapacity (mCapacity s) with
         | Some total => Some (add64 total c)
         | None => None
         end |} s.

(** A method called on each element of a list in turn. *)
Fixpoint forEach {X : Type} (f : X -> Op Ledger unit) (xs : list X)
  : Op Ledger unit :=
  match xs with
  | [] => ret tt
  | x :: rest => f x ;; forEach f rest
  end.

(** [paired init s pending]: the ledger [s] is reached from [init] by
    calls of [lockLocalCapacity] and [releaseLocalCapacity] that returned,
    each release being of a message that was admitted before and not
    released since; [pending] lists the admitted messages still locked. *)
Inductive paired (init : Ledger) : Ledger -> list StellarMessage -> Prop :=
| paired_init : paired init init []
| paired_admitted s pending msg s' :
    paired init s pending ->
    lockLocalCapacity msg s = Ok (true, s') ->
    paired init s' (msg :: pending)
| paired_refused s pending msg s' :
    paired init s pending ->
    lockLocalCapacity msg s = Ok (false, s') ->
    paired init s' pending
| paired_released s before msg after freed s' :
    paired init s (before ++ msg :: after) ->
    releaseLocalCapacity msg s = Ok (freed, s') ->
    paired init s' (before ++ after).

(** One call, that returned, of a mutating method of the base class. *)
Inductive base_step : Ledger -> Ledger -> Prop :=
| step_lockLocalCapacity msg admitted s s' :
    lockLocalCapacity msg s = Ok (admitted, s') -> base_step s s'
| step_releaseLocalCapacity msg freed s s' :
    releaseLocalCapacity msg s = Ok (freed, s') -> base_step s s'
| step_lockOutboundCapacity msg s s' :
    lockOutboundCapacity msg s = Ok (tt, s') -> base_step s s'.

End Traces.

(** The objects a connection can hold: the constructed one and what calls
    of the public methods, when they return, make of it. *)
Section Lifetimes.
Context {StellarMessage : Type}.
Context `{StellarMessageOps StellarMessage}.
Variable app : Application StellarMessage.

Inductive message_reachable
  : FlowControlCapacity StellarMessage FlowControlMessageCapacity.Fields
    -> Prop :=
| message_created :
    message_reachable (FlowControlMessageCapacity.create app)
| message_base_step s s' :
    message_reachable s -> base_step s s' -> message_reachable s'
| message_granted s grant s' :
    message_reachable s ->
    FlowControlMessageCapacity.releaseOutboundCapacity grant s = Ok (tt, s') ->
    message_reachable s'.

Inductive byte_reachable (remoteVersion : Z)
  : FlowControlCapacity StellarMessage FlowControlByteCapacity.Fields
    -> Prop :=
| byte_created :
    byte_reachable remoteVersion
      (FlowControlByteCapacity.create app remoteVersion)
| byte_base_step s s' :
    byte_reachable remoteVersion s -> base_step s s' ->
    byte_reachable remoteVersion s'
| byte_granted s grant s' :
    byte_reachable remoteVersion s ->
    FlowControlByteCapacity.releaseOutboundCapacity grant s = Ok (tt, s') ->
    byte_reachable remoteVersion s'
| byte_increased s increase s' :
    byte_reachable remoteVersion s ->
    FlowControlByteCapacity.handleTxSizeIncrease increase s = Ok (tt, s') ->
    byte_reachable remoteVersion s'.

End Lifetimes.

(** ** A concrete message type

    A message reduced to what the ledger observes of it, for running the
    methods on explicit inputs. *)

Module Sample.

Record Message : Type := {
  kind : MessageType;
  flood : bool;
  serializedSize : Z;
  grantedMessages : Z;
  grantedBytes : Z
}.

(** The discriminator of an XDR union is a 4-byte enum. *)
#[global] Instance ops : StellarMessageOps Message := {|
  type := kind;
  numBytes := grantedBytes;
  getNumMessages := grantedMessages;
  xdr_size := serializedSize;
  xdr_size_type := fun _ => 4
|}.

Definition app (floodLimit totalLimit bytesTotal localVersion threshold : Z)
  : Application Message :=
  {| getConfig := {| PEER_FLOOD_READING_CAPACITY := floodLimit;
                     PEER_READING_CAPACITY := totalLimit;
                     OVERLAY_PROTOCOL_VERSION := localVersion |};
     isFloodMessage := flood;
     flowControlBytesTotal := bytesTotal;
     FIRST_VERSION_UPDATED_FLOW_CONTROL_ACCOUNTING := threshold |}.

(** A transaction-like flood message of [size] serialized bytes. *)
Definition floodMsg (size : Z) : Message :=
  {| kind := OTHER_MESSAGE 8; flood := true; serializedSize := size;
     grantedMessages := 0; grantedBytes := 0 |}.

(** A [SEND_MORE_EXTENDED] credit grant. *)
Definition sendMoreExtended (messages bytes : Z) : Message :=
  {| kind := SEND_MORE_EXTENDED; flood := false; serializedSize := 12;
     grantedMessages := messages; grantedBytes := bytes |}.

(** A [SEND_MORE] credit grant. *)
Definition sendMore (messages : Z) : Message :=
  {| kind := SEND_MORE; flood := false; serializedSize := 8;
     grantedMessages := messages; grantedBytes := 0 |}.

(** A point-to-point message of [size] serialized bytes. *)
Definition plainMsg (size : Z) : Message :=
  {| kind := OTHER_MESSAGE 6; flood := false; serializedSize := size;
     grantedMessages := 0; grantedBytes := 0 |}.

(** A count-based ledger with flood limit 5 and total limit 10. *)
Definition countLedger (floodCapacity totalCapacity outbound : Z)
  : FlowControlCapacity Message FlowControlMessageCapacity.Fields :=
  {| mApp := app 5 10 300000 35 30;
     mCapacity := {| mFloodCapacity := floodCapacity;
                     mTotalCapacity := Some totalCapacity |};
     mOutboundCapacity := outbound;
     self := FlowControlMessageCapacity.NoFields |}.

(** A byte-based ledger; the local version and the remote version 35 are
    above the threshold 30. *)
Definition byteLedger (floodLimit floodCapacity outbound : Z)
  : FlowControlCapacity Message FlowControlByteCapacity.Fields :=
  {| mApp := app 5 10 300000 35 30;
     mCapacity := {| mFloodCapacity := floodCapacity;
                     mTotalCapacity := None |};
     mOutboundCapacity := outbound;
     self := {| FlowControlByteCapacity.mCapacityLimits :=
                  {| mFloodCapacity := floodLimit; mTotalCapacity := None |};
                FlowControlByteCapacity.mRemoteOverlayVersion := 35 |} |}.

End Sample.

(** * Properties *)

(** ** Arithmetic on [uint64_t] *)

Lemma u64_id x : is_u64 x -> u64 x = x.
Proof. unfold is_u64, u64. intros Hx. apply Z.mod_small. exact Hx. Qed.

Lemma u64_range x : is_u64 (u64 x).
Proof. unfold is_u64, u64. apply Z.mod_pos_bound. lia. Qed.

Lemma sub64_exact a b : 0 <= b <= a -> a < 2 ^ 64 -> sub64 a b = a - b.
Proof. intros Hb Ha. unfold sub64. apply u64_id. unfold is_u64. lia. Qed.

Lemma add64_exact a b : 0 <= a -> 0 <= b -> a + b < 2 ^ 64 -> add64 a b = a + b.
Proof. intros Ha Hb Hab. unfold add64. apply u64_id. unfold is_u64. lia. Qed.

Lemma add64_sub64 a b : is_u64 a -> 0 <= b <= a -> add64 (sub64 a b) b = a.
Proof.
  intros Ha Hb. unfold is_u64 in Ha.
  rewrite sub64_exact by lia.
  rewrite add64_exact by lia. lia.
Qed.

(** ** The monad of calls *)

Ltac unfold_op :=
  unfold bind, ret, get, modify, call, releaseAssert in *.

Lemma bind_Ok {S A B} (c : Op S A) (k : A -> Op S B) s a s' :
  c s = Ok (a, s') -> bind c k s = k a s'.
Proof. intros Hc. unfold bind. rewrite Hc. reflexivity. Qed.

Lemma bind_Abort {S A B} (c : Op S A) (k : A -> Op S B) s :
  c s = Abort -> bind c k s = Abort.
Proof. intros Hc. unfold bind. rewrite Hc. reflexivity. Qed.

Lemma call_Ok {S A} (f : S -> result A) s a : f s = Ok a -> call f s = Ok (a, s).
Proof. intros Hf. unfold call. rewrite Hf. reflexivity. Qed.

Lemma call_Abort {S A} (f : S -> result A) s : f s = Abort -> call f s = Abort.
Proof. intros Hf. unfold call. rewrite Hf. reflexivity. Qed.

(** ** The overrides return [uint64_t] values *)

#[global] Instance message_strategy_laws M :
  CapacityStrategyLaws (@FlowControlMessageCapacity.message_strategy M).
Proof.
  constructor. intros app d msg c [= <-]. unfold is_u64. lia.
Qed.

#[global] Instance byte_strategy_laws M `{StellarMessageOps M} :
  CapacityStrategyLaws (@FlowControlByteCapacity.byte_strategy M _).
Proof.
  constructor. intros app d msg c. cbn.
  unfold FlowControlByteCapacity.getMsgResourceCount, msgBodySize.
  destruct (_ =? 0); [discriminate|].
  intros [= <-]. destruct (_ && _); apply u64_range.
Qed.

(** ** The methods of the base class, case by case *)

Section BaseFacts.
Context {M D : Type}.
Context `{StellarMessageOps M}.
Context `{strategy : CapacityStrategy M D}.

Local Abbreviation Ledger := (FlowControlCapacity M D).

(** The object after [lockLocalCapacity] took the total capacity. *)
Local Abbreviation totalLocked c s :=
  (match mTotalCapacity (mCapacity s) with
   | Some total => setTotalCapacity (Some (sub64 total c)) s
   | None => s
   end).

Lemma lockLocalCapacity_eq (msg : M) (s : Ledger) :
  lockLocalCapacity msg s =
    match checkCapacityInvariants s, msgResourceCount msg s with
    | Ok _, Ok c =>
        if match mTotalCapacity (mCapacity s) with
           | Some total => c <=? total
           | None => true
           end
        then
          if isFloodMessage (mApp s) msg then
            if mFloodCapacity (mCapacity s) <? c
            then Ok (false, totalLocked c s)
            else Ok (true,
                     setFloodCapacity (sub64 (mFloodCapacity (mCapacity s)) c)
                       (totalLocked c s))
          else Ok (true, totalLocked c s)
        else Abort
    | _, _ => Abort
    end.
Proof.
  unfold lockLocalCapacity. unfold_op.
  destruct (checkCapacityInvariants s) as [[]|]; [|reflexivity].
  destruct (msgResourceCount msg s) as [c|]; [|reflexivity].
  destruct (mTotalCapacity (mCapacity s)) as [total|] eqn:Htotal.
  - destruct (c <=? total); [|reflexivity]. cbn.
    destruct (isFloodMessage (mApp s) msg); [|reflexivity].
    destruct (mFloodCapacity (mCapacity s) <? c); reflexivity.
  - destruct (isFloodMessage (mApp s) msg); [|reflexivity].
    destruct (mFloodCapacity (mCapacity s) <? c); reflexivity.
Qed.

Lemma releaseLocalCapacity_eq (msg : M) (s : Ledger) :
  releaseLocalCapacity msg s =
    match msgResourceCount msg s with
    | Ok c =>
        match checkCapacityInvariants (released msg c s) with
        | Ok _ => Ok (if isFloodMessage (mApp s) msg then c else 0,
                      released msg c s)
        | Abort => Abort
        end
    | Abort => Abort
    end.
Proof.
  unfold releaseLocalCapacity, released. unfold_op.
  destruct (msgResourceCount msg s) as [c|]; [|reflexivity].
  destruct s as [app [flood [total|]] out d]; cbn;
    destruct (isFloodMessage app msg); cbn;
    unfold setFloodCapacity, setTotalCapacity, setCapacity; cbn;
    match goal with
    | |- context [checkCapacityInvariants ?x] =>
        destruct (checkCapacityInvariants x) as [[]|]; reflexivity
    end.
Qed.

Lemma lockOutboundCapacity_eq (msg : M) (s : Ledger) :
  lockOutboundCapacity msg s =
    if isFloodMessage (mApp s) msg then
      match msgResourceCount msg s with
      | Ok c =>
          if c <=? mOutboundCapacity s
          then Ok (tt, setOutboundCapacity (sub64 (mOutboundCapacity s) c) s)
          else Abort
      | Abort => Abort
      end
    else Ok (tt, s).
Proof.
  unfold lockOutboundCapacity, hasOutboundCapacity. unfold_op.
  destruct (isFloodMessage (mApp s) msg); [|reflexivity].
  destruct (msgResourceCount msg s) as [c|] eqn:Hc; [|reflexivity].
  destruct (c <=? mOutboundCapacity s); [|reflexivity].
  rewrite Hc. reflexivity.
Qed.

Lemma lockAll_cons (msg : M) (rest : list M) (s s' s'' : Ledger) b bs :
  lockLocalCapacity msg s = Ok (b, s') ->
  lockAll rest s' = Ok (bs, s'') ->
  lockAll (msg :: rest) s = Ok (b :: bs, s'').
Proof.
  intros Hlock Hrest. cbn [lockAll].
  rewrite (bind_Ok _ _ _ Hlock), (bind_Ok _ _ _ Hrest). reflexivity.
Qed.

End BaseFacts.

(** ** Cost of a message in bytes *)

Section ByteCost.
Context {M : Type}.
Context `{StellarMessageOps M}.

Import FlowControlByteCapacity.

Local Abbreviation Ledger := (FlowControlCapacity M Fields).

(** [msgBodySize] on a message whose serialized size covers its
    discriminator and fits a [size_t]: no subtraction wraps. *)
Lemma msgBodySize_exact threshold msg remote local :
  0 <= xdr_size_type (type msg) <= xdr_size msg ->
  xdr_size msg < 2 ^ 64 ->
  msgBodySize threshold msg remote local =
    if (threshold <=? remote) && (threshold <=? local)
    then xdr_size msg - xdr_size_type (type msg)
    else xdr_size msg.
Proof.
  intros Hdisc Hsize. unfold msgBodySize.
  destruct (_ && _); apply u64_id; unfold is_u64; lia.
Qed.

Lemma getMsgResourceCount_nonzero app d msg :
  mRemoteOverlayVersion d <> 0 ->
  getMsgResourceCount app d msg =
    Ok (msgBodySize (FIRST_VERSION_UPDATED_FLOW_CONTROL_ACCOUNTING app) msg
          (mRemoteOverlayVersion d) (OVERLAY_PROTOCOL_VERSION (getConfig app))).
Proof.
  intros Hv. unfold getMsgResourceCount.
  destruct (Z.eqb_spec (mRemoteOverlayVersion d) 0); [contradiction|reflexivity].
Qed.

Lemma getMsgResourceCount_zero app d msg :
  mRemoteOverlayVersion d = 0 -> getMsgResourceCount app d msg = Abort.
Proof. intros Hv. unfold getMsgResourceCount. rewrite Hv. reflexivity. Qed.

(** C4.  The cost of a message on a byte-based ledger.  When the remote
    and the local version are both at or above
    [FIRST_VERSION_UPDATED_FLOW_CONTROL_ACCOUNTING], [msgBodySize] is the
    serialized size of the message minus the size of its type
    discriminator; when either version is below it, [msgBodySize] is the
    full serialized size.  [getMsgResourceCount] returns that value on every
    ledger whose recorded remote version passes its assertion (is not 0). *)
Theorem byte_resource_cost (app : Application M) (d : Fields) (msg : M) :
  0 <= xdr_size_type (type msg) <= xdr_size msg ->
  xdr_size msg < 2 ^ 64 ->
  let threshold := FIRST_VERSION_UPDATED_FLOW_CONTROL_ACCOUNTING app in
  let remote := mRemoteOverlayVersion d in
  let local := OVERLAY_PROTOCOL_VERSION (getConfig app) in
  (threshold <= remote /\ threshold <= local ->
   msgBodySize threshold msg remote local
   = xdr_size msg - xdr_size_type (type msg) /\
   (remote <> 0 ->
    getMsgResourceCount app d msg
    = Ok (xdr_size msg - xdr_size_type (type msg)))) /\
  (remote < threshold \/ local < threshold ->
   msgBodySize threshold msg remote local = xdr_size msg /\
   (remote <> 0 -> getMsgResourceCount app d msg = Ok (xdr_size msg))).
Proof.
  intros Hdisc Hsize threshold remote local.
  assert (Hcost : remote <> 0 ->
                  getMsgResourceCount app d msg
                  = Ok (msgBodySize threshold msg remote local))
    by apply getMsgResourceCount_nonzero.
  rewrite msgBodySize_exact in * by assumption.
  split.
  - intros [Hr Hl].
    destruct (Z.leb_spec threshold remote); [|lia].
    destruct (Z.leb_spec threshold local); [|lia].
    split; [reflexivity|exact Hcost].
  - intros Hbelow.
    destruct (Z.leb_spec threshold remote); cbn in *;
      [|split; [reflexivity|exact Hcost]].
    destruct (Z.leb_spec threshold local); [lia|].
    split; [reflexivity|exact Hcost].
Qed.

(** C9.  On a byte-based ledger whose recorded remote version is 0 every
    computation of a message's cost aborts, and with it every method that
    computes one: [lockLocalCapacity], [releaseLocalCapacity],
    [hasOutboundCapacity], [lockOutboundCapacity] on a flood message, and
    [releaseOutboundCapacity], whose log condition asks
    [hasOutboundCapacity].  The cost is computed for every other remote
    version, and for no other reason does its computation abort. *)
Theorem byte_remote_version_zero_aborts (s : Ledger) (msg : M) :
  mRemoteOverlayVersion (self s) = 0 ->
  getMsgResourceCount (mApp s) (self s) msg = Abort /\
  lockLocalCapacity msg s = Abort /\
  releaseLocalCapacity msg s = Abort /\
  hasOutboundCapacity msg s = Abort /\
  (isFloodMessage (mApp s) msg = true -> lockOutboundCapacity msg s = Abort) /\
  releaseOutboundCapacity msg s = Abort /\
  (forall app d, getMsgResourceCount app d msg = Abort <->
                 mRemoteOverlayVersion d = 0).
Proof.
  intros Hv.
  assert (Hcost : msgResourceCount msg s = Abort)
    by (apply getMsgResourceCount_zero; exact Hv).
  split; [exact Hcost|].
  split; [|split; [|split; [|split; [|split]]]].
  - unfold lockLocalCapacity.
    destruct (checkCapacityInvariants s) as [[]|] eqn:Hinv.
    + rewrite (bind_Ok _ _ _ (call_Ok _ _ Hinv)).
      apply bind_Abort, call_Abort, Hcost.
    + apply bind_Abort, call_Abort, Hinv.
  - unfold releaseLocalCapacity. apply bind_Abort, call_Abort, Hcost.
  - unfold hasOutboundCapacity. rewrite Hcost. reflexivity.
  - intros Hflood. unfold lockOutboundCapacity, bind at 1, get.
    rewrite Hflood. apply bind_Abort, call_Abort.
    unfold hasOutboundCapacity. rewrite Hcost. reflexivity.
  - unfold releaseOutboundCapacity.
    destruct (isSendMoreExtended (type msg)); [|reflexivity].
    unfold releaseAssert, bind at 1.
    apply bind_Abort, call_Abort.
    unfold hasOutboundCapacity. rewrite Hcost. reflexivity.
  - intros app d. split; [|apply getMsgResourceCount_zero].
    unfold getMsgResourceCount.
    destruct (Z.eqb_spec (mRemoteOverlayVersion d) 0); [trivial|discriminate].
Qed.

End ByteCost.

Lemma byte_resource_cost_witness :
  FlowControlByteCapacity.getMsgResourceCount
    (Sample.app 5 10 300000 35 30)
    {| FlowControlByteCapacity.mCapacityLimits :=
         {| mFloodCapacity := 300000; mTotalCapacity := None |};
       FlowControlByteCapacity.mRemoteOverlayVersion := 35 |}
    (Sample.floodMsg 904)
  = Ok 900 /\
  FlowControlByteCapacity.getMsgResourceCount
    (Sample.app 5 10 300000 35 30)
    {| FlowControlByteCapacity.mCapacityLimits :=
         {| mFloodCapacity := 300000; mTotalCapacity := None |};
       FlowControlByteCapacity.mRemoteOverlayVersion := 29 |}
    (Sample.floodMsg 904)
  = Ok 904.
Proof.
  split.
  - refine (proj2 (proj1 (byte_resource_cost (Sample.app 5 10 300000 35 30)
                     {| FlowControlByteCapacity.mCapacityLimits :=
                          {| mFloodCapacity := 300000;
                             mTotalCapacity := None |};
                        FlowControlByteCapacity.mRemoteOverlayVersion := 35 |}
                     (Sample.floodMsg 904) _ _) _) _); cbn; lia.
  - refine (proj2 (proj2 (byte_resource_cost (Sample.app 5 10 300000 35 30)
                     {| FlowControlByteCapacity.mCapacityLimits :=
                          {| mFloodCapacity := 300000;
                             mTotalCapacity := None |};
                        FlowControlByteCapacity.mRemoteOverlayVersion := 29 |}
                     (Sample.floodMsg 904) _ _) _) _); cbn; lia.
Defined.

Lemma byte_remote_version_zero_aborts_witness :
  lockLocalCapacity (Sample.floodMsg 904)
    (FlowControlByteCapacity.create (Sample.app 5 10 300000 35 30) 0)
  = Abort.
Proof.
  apply (byte_remote_version_zero_aborts
           (FlowControlByteCapacity.create (Sample.app 5 10 300000 35 30) 0)
           (Sample.floodMsg 904)).
  reflexivity.
Defined.

(** ** Locking and releasing local capacity *)

Section LocalCapacity.
Context {M D : Type}.
Context `{StellarMessageOps M}.
Context `{strategy : CapacityStrategy M D}.
Context `{laws : !CapacityStrategyLaws strategy}.

Local Abbreviation Ledger := (FlowControlCapacity M D).

(** C2, on the admitted path.  From an object that satisfies the capacity
    invariants, when [lockLocalCapacity] admits the message (it returns
    [true]), [releaseLocalCapacity] of the same message right after it
    returns and leaves the flood and the total capacity, and the whole
    object, as they were before the lock. *)
Theorem lock_release_round_trip (s s1 : Ledger) (msg : M) :
  capacity_u64 s ->
  checkCapacityInvariants s = Ok tt ->
  lockLocalCapacity msg s = Ok (true, s1) ->
  exists freed s2,
    releaseLocalCapacity msg s1 = Ok (freed, s2) /\
    mFloodCapacity (mCapacity s2) = mFloodCapacity (mCapacity s) /\
    mTotalCapacity (mCapacity s2) = mTotalCapacity (mCapacity s) /\
    s2 = s.
Proof.
  intros [Hflood Htotal] Hinv Hlock.
  rewrite lockLocalCapacity_eq, Hinv in Hlock.
  destruct (msgResourceCount msg s) as [c|] eqn:Hc; [|discriminate].
  assert (Hc64 : is_u64 c) by (eapply getMsgResourceCount_u64; exact Hc).
  destruct s as [app [flood total] out d].
  unfold msgResourceCount in Hc. cbn in *.
  unfold is_u64 in *.
  assert (Htotal' : forall t, total = Some t -> 0 <= t < 2 ^ 64)
    by exact Htotal.
  destruct total as [total|];
    [specialize (Htotal' total eq_refl);
     destruct (Z.leb_spec c total) as [Hle|]; [|discriminate]|];
    cbn in Hlock;
    (destruct (isFloodMessage app msg) eqn:Hfl;
     [destruct (Z.ltb_spec flood c) as [|Hle']; [discriminate|]|]);
    injection Hlock as <-;
    rewrite releaseLocalCapacity_eq; unfold released, msgResourceCount; cbn;
    rewrite Hc, Hfl; unfold setCapacity; cbn;
    rewrite ?add64_sub64 by (unfold is_u64; lia);
    rewrite Hinv; eauto 10.
Qed.

End LocalCapacity.

Section ReleaseLocal.
Context {M : Type}.
Context `{StellarMessageOps M}.

(** C7.  Whatever the strategy, when the cost of the message is computed
    and the closing check of the invariants passes, [releaseLocalCapacity]
    returns that cost for a flood message and 0 for any other; it has added
    the cost to the flood capacity of a flood message only, and to the total
    capacity when there is one.  It returns in no other way.  On a
    byte-based ledger with flood capacity 0 and a flood limit of at least
    250, releasing a flood message of cost 250 returns 250 and leaves the
    flood capacity at 250. *)
Theorem releaseLocalCapacity_returns_cost :
  (forall (D : Type) (strategy : CapacityStrategy M D)
          (s : FlowControlCapacity M D) (msg : M),
      (forall c,
          msgResourceCount msg s = Ok c ->
          checkCapacityInvariants (released msg c s) = Ok tt ->
          exists s',
            releaseLocalCapacity msg s
            = Ok (if isFloodMessage (mApp s) msg then c else 0, s') /\
            mFloodCapacity (mCapacity s')
            = (if isFloodMessage (mApp s) msg
               then add64 (mFloodCapacity (mCapacity s)) c
               else mFloodCapacity (mCapacity s)) /\
            mTotalCapacity (mCapacity s')
            = option_map (fun total => add64 total c)
                         (mTotalCapacity (mCapacity s))) /\
      (forall freed s',
          releaseLocalCapacity msg s = Ok (freed, s') ->
          exists c,
            msgResourceCount msg s = Ok c /\
            freed = (if isFloodMessage (mApp s) msg then c else 0))) /\
  (forall (s : FlowControlCapacity M FlowControlByteCapacity.Fields) (msg : M),
      isFloodMessage (mApp s) msg = true ->
      msgResourceCount msg s = Ok 250 ->
      mCapacity s = {| mFloodCapacity := 0; mTotalCapacity := None |} ->
      250 <= mFloodCapacity (capacityLimits s) ->
      mTotalCapacity (capacityLimits s) = None ->
      exists s',
        releaseLocalCapacity msg s = Ok (250, s') /\
        mFloodCapacity (mCapacity s') = 250).
Proof.
  split.
  - intros D strategy s msg. split.
    + intros c Hc Hinv. exists (released msg c s).
      rewrite releaseLocalCapacity_eq, Hc, Hinv.
      split; [reflexivity|]. split; [reflexivity|].
      cbn. destruct (mTotalCapacity (mCapacity s)); reflexivity.
    + intros freed s' Hrel.
      rewrite releaseLocalCapacity_eq in Hrel.
      destruct (msgResourceCount msg s) as [c|]; [|discriminate].
      destruct (checkCapacityInvariants (released msg c s)); [|discriminate].
      injection Hrel as <- <-. exists c. split; reflexivity.
  - intros s msg Hfl Hc Hcap Hlimit Hnone.
    exists (released msg 250 s).
    rewrite releaseLocalCapacity_eq, Hc.
    unfold checkCapacityInvariants, released, capacityLimits in *.
    cbn in *. rewrite Hfl, Hcap, Hnone. cbn.
    destruct (Z.leb_spec 250
                (mFloodCapacity
                   (FlowControlByteCapacity.getCapacityLimits
                      (mApp s) (self s)))); [|lia].
    split; reflexivity.
Qed.

End ReleaseLocal.

Lemma lock_release_round_trip_witness :
  exists freed s2,
    releaseLocalCapacity (Sample.floodMsg 904) (Sample.byteLedger 300000 100 0)
    = Ok (freed, s2) /\
    mFloodCapacity (mCapacity s2) = 1000 /\
    mTotalCapacity (mCapacity s2) = None /\
    s2 = Sample.byteLedger 300000 1000 0.
Proof.
  apply (lock_release_round_trip (s := Sample.byteLedger 300000 1000 0)
           (s1 := Sample.byteLedger 300000 100 0) (Sample.floodMsg 904)).
  - split; [unfold is_u64; cbn; lia | discriminate].
  - reflexivity.
  - reflexivity.
Defined.

(** C2 as stated fails when the lock refuses the message: the total capacity
    taken by the refused lock comes back, and the flood capacity, which the
    lock did not take, grows by the cost. *)
Lemma lock_release_refused_counterexample :
  checkCapacityInvariants (Sample.countLedger 0 5 0) = Ok tt /\
  (_ <- lockLocalCapacity (Sample.floodMsg 904) ;;
   releaseLocalCapacity (Sample.floodMsg 904)) (Sample.countLedger 0 5 0)
  = Ok (1, Sample.countLedger 1 5 0) /\
  mFloodCapacity (mCapacity (Sample.countLedger 1 5 0))
  <> mFloodCapacity (mCapacity (Sample.countLedger 0 5 0)).
Proof.
  split; [reflexivity|]. split; [reflexivity|]. discriminate.
Qed.

Lemma releaseLocalCapacity_returns_cost_witness :
  exists s',
    releaseLocalCapacity (Sample.floodMsg 254) (Sample.byteLedger 300000 0 0)
    = Ok (250, s') /\
    mFloodCapacity (mCapacity s') = 250.
Proof.
  apply (proj2 (@releaseLocalCapacity_returns_cost Sample.Message _)
           (Sample.byteLedger 300000 0 0) (Sample.floodMsg 254)).
  - reflexivity.
  - reflexivity.
  - reflexivity.
  - cbn. lia.
  - reflexivity.
Defined.

(** ** Outbound capacity *)

Section Outbound.
Context {M : Type}.
Context `{StellarMessageOps M}.

Local Abbreviation CountLedger :=
  (FlowControlCapacity M FlowControlMessageCapacity.Fields).
Local Abbreviation ByteLedger :=
  (FlowControlCapacity M FlowControlByteCapacity.Fields).

Lemma message_releaseOutboundCapacity_eq (grant : M) (s : CountLedger) :
  FlowControlMessageCapacity.releaseOutboundCapacity grant s =
    if isSendMore (type grant) || isSendMoreExtended (type grant)
    then Ok (tt, setOutboundCapacity
                   (add64 (mOutboundCapacity s) (getNumMessages grant)) s)
    else Abort.
Proof.
  unfold FlowControlMessageCapacity.releaseOutboundCapacity. unfold_op.
  destruct (_ || _); reflexivity.
Qed.

Lemma byte_releaseOutboundCapacity_eq (grant : M) (s : ByteLedger) :
  FlowControlByteCapacity.releaseOutboundCapacity grant s =
    if isSendMoreExtended (type grant) then
      if FlowControlByteCapacity.mRemoteOverlayVersion (self s) =? 0
      then Abort
      else Ok (tt, setOutboundCapacity
                     (add64 (mOutboundCapacity s) (numBytes grant)) s)
    else Abort.
Proof.
  unfold FlowControlByteCapacity.releaseOutboundCapacity, hasOutboundCapacity,
    msgResourceCount.
  unfold_op. cbn. unfold FlowControlByteCapacity.getMsgResourceCount.
  destruct (isSendMoreExtended (type grant)); [|reflexivity].
  destruct (_ =? 0); reflexivity.
Qed.

Lemma setOutboundCapacity_same {D} (s : FlowControlCapacity M D) :
  setOutboundCapacity (mOutboundCapacity s) s = s.
Proof. destruct s. reflexivity. Qed.

Lemma add64_add64 a b c : add64 (add64 a b) c = add64 a (b + c).
Proof.
  unfold add64, u64. rewrite Z.add_mod_idemp_l by lia. f_equal. lia.
Qed.

(** Credit grants one after the other add up modulo [2^64]. *)
Lemma byte_releaseOutboundCapacity_all (grants : list M) (s : ByteLedger) :
  FlowControlByteCapacity.mRemoteOverlayVersion (self s) <> 0 ->
  Forall (fun grant => type grant = SEND_MORE_EXTENDED) grants ->
  is_u64 (mOutboundCapacity s) ->
  forEach FlowControlByteCapacity.releaseOutboundCapacity grants s =
    Ok (tt, setOutboundCapacity
              (add64 (mOutboundCapacity s)
                     (fold_right Z.add 0 (map numBytes grants))) s).
Proof.
  intros Hv Hall. revert s Hv.
  induction Hall as [|grant grants Hty _ IH]; intros s Hv Hout; cbn.
  - unfold ret, add64. rewrite Z.add_0_r, u64_id by exact Hout.
    rewrite setOutboundCapacity_same. reflexivity.
  - unfold bind at 1. rewrite byte_releaseOutboundCapacity_eq, Hty. cbn.
    destruct (Z.eqb_spec
                (FlowControlByteCapacity.mRemoteOverlayVersion (self s)) 0);
      [contradiction|].
    rewrite IH; [|exact Hv|apply u64_range].
    cbn. rewrite add64_add64. reflexivity.
Qed.

Lemma message_releaseOutboundCapacity_all (grants : list M) (s : CountLedger) :
  Forall (fun grant => type grant = SEND_MORE \/
                       type grant = SEND_MORE_EXTENDED) grants ->
  is_u64 (mOutboundCapacity s) ->
  forEach FlowControlMessageCapacity.releaseOutboundCapacity grants s =
    Ok (tt, setOutboundCapacity
              (add64 (mOutboundCapacity s)
                     (fold_right Z.add 0 (map getNumMessages grants))) s).
Proof.
  intros Hall. revert s.
  induction Hall as [|grant grants Hty _ IH]; intros s Hout; cbn.
  - unfold ret, add64. rewrite Z.add_0_r, u64_id by exact Hout.
    rewrite setOutboundCapacity_same. reflexivity.
  - unfold bind at 1. rewrite message_releaseOutboundCapacity_eq.
    replace (isSendMore (type grant) || isSendMoreExtended (type grant))
      with true by (destruct Hty as [-> | ->]; reflexivity).
    rewrite IH by apply u64_range.
    cbn. rewrite add64_add64. reflexivity.
Qed.

(** C10.  [releaseOutboundCapacity] of either strategy, on a credit grant
    of the kind it accepts (and, for the byte-based one, a remote version
    that passes the assertion), returns and sets the outbound counter to
    its old value plus the grant modulo [2^64]; no limit takes part.
    Grants one after the other add up the same way, and a sum that reaches
    [2^64] leaves the counter at the sum minus [2^64], below its old value.
    The check of the capacity invariants does not read the counter. *)
Theorem releaseOutboundCapacity_wraps :
  (forall (s : CountLedger) (grant : M),
      type grant = SEND_MORE \/ type grant = SEND_MORE_EXTENDED ->
      FlowControlMessageCapacity.releaseOutboundCapacity grant s =
        Ok (tt, setOutboundCapacity
                  ((mOutboundCapacity s + getNumMessages grant) mod 2 ^ 64)
                  s)) /\
  (forall (s : ByteLedger) (grant : M),
      type grant = SEND_MORE_EXTENDED ->
      FlowControlByteCapacity.mRemoteOverlayVersion (self s) <> 0 ->
      FlowControlByteCapacity.releaseOutboundCapacity grant s =
        Ok (tt, setOutboundCapacity
                  ((mOutboundCapacity s + numBytes grant) mod 2 ^ 64) s)) /\
  (forall (s : CountLedger) (grants : list M),
      Forall (fun grant => type grant = SEND_MORE \/
                           type grant = SEND_MORE_EXTENDED) grants ->
      is_u64 (mOutboundCapacity s) ->
      forEach FlowControlMessageCapacity.releaseOutboundCapacity grants s =
        Ok (tt, setOutboundCapacity
                  ((mOutboundCapacity s
                    + fold_right Z.add 0 (map getNumMessages grants))
                   mod 2 ^ 64) s)) /\
  (forall (s : ByteLedger) (grants : list M),
      Forall (fun grant => type grant = SEND_MORE_EXTENDED) grants ->
      FlowControlByteCapacity.mRemoteOverlayVersion (self s) <> 0 ->
      is_u64 (mOutboundCapacity s) ->
      forEach FlowControlByteCapacity.releaseOutboundCapacity grants s =
        Ok (tt, setOutboundCapacity
                  ((mOutboundCapacity s
                    + fold_right Z.add 0 (map numBytes grants))
                   mod 2 ^ 64) s)) /\
  (forall counter granted,
      is_u64 counter -> is_u64 granted -> 2 ^ 64 <= counter + granted ->
      add64 counter granted = counter + granted - 2 ^ 64 /\
      add64 counter granted < counter) /\
  (forall (D : Type) (strategy : CapacityStrategy M D)
          (s : FlowControlCapacity M D) (counter : Z),
      checkCapacityInvariants (setOutboundCapacity counter s)
      = checkCapacityInvariants s).
Proof.
  split; [|split; [|split; [|split; [|split]]]].
  - intros s grant Hty. rewrite message_releaseOutboundCapacity_eq.
    destruct Hty as [-> | ->]; reflexivity.
  - intros s grant Hty Hv. rewrite byte_releaseOutboundCapacity_eq, Hty. cbn.
    destruct (Z.eqb_spec
                (FlowControlByteCapacity.mRemoteOverlayVersion (self s)) 0);
      [contradiction|reflexivity].
  - intros s grants Hall Hout.
    apply message_releaseOutboundCapacity_all; assumption.
  - intros s grants Hall Hv Hout.
    apply byte_releaseOutboundCapacity_all; assumption.
  - intros counter granted [Hc0 Hc1] [Hg0 Hg1] Hsum.
    assert (Heq : add64 counter granted = counter + granted - 2 ^ 64).
    { unfold add64, u64. symmetry.
      apply (Z.mod_unique_pos _ _ 1). lia. lia. }
    split; [exact Heq | lia].
  - reflexivity.
Qed.

(** C8.  A byte-based ledger with outbound counter 0 that receives a
    [SEND_MORE_EXTENDED] grant of 1000 bytes has counter 1000; it then has
    outbound capacity for a flood message of cost 900, and locking that
    message leaves the counter at 100.  For a message that is not a flood
    message [lockOutboundCapacity] returns with the object unchanged, in
    every state of either strategy. *)
Theorem outbound_grant_then_lock :
  (forall (s : ByteLedger) (grant msg : M),
      mOutboundCapacity s = 0 ->
      type grant = SEND_MORE_EXTENDED ->
      numBytes grant = 1000 ->
      isFloodMessage (mApp s) msg = true ->
      msgResourceCount msg s = Ok 900 ->
      exists s1 s2,
        FlowControlByteCapacity.releaseOutboundCapacity grant s = Ok (tt, s1) /\
        mOutboundCapacity s1 = 1000 /\
        hasOutboundCapacity msg s1 = Ok true /\
        lockOutboundCapacity msg s1 = Ok (tt, s2) /\
        mOutboundCapacity s2 = 100) /\
  (forall (D : Type) (strategy : CapacityStrategy M D)
          (s : FlowControlCapacity M D) (msg : M),
      isFloodMessage (mApp s) msg = false ->
      lockOutboundCapacity msg s = Ok (tt, s)).
Proof.
  split.
  - intros s grant msg Hout Hty Hbytes Hfl Hc.
    assert (Hv : FlowControlByteCapacity.mRemoteOverlayVersion (self s) <> 0).
    { intros Hz. unfold msgResourceCount in Hc. cbn in Hc.
      rewrite getMsgResourceCount_zero in Hc by exact Hz. discriminate. }
    exists (setOutboundCapacity 1000 s).
    exists (setOutboundCapacity 100 s).
    rewrite byte_releaseOutboundCapacity_eq, Hty, Hout, Hbytes.
    rewrite lockOutboundCapacity_eq.
    unfold hasOutboundCapacity, msgResourceCount in *. cbn in *.
    rewrite Hfl, Hc.
    destruct (Z.eqb_spec
                (FlowControlByteCapacity.mRemoteOverlayVersion (self s)) 0);
      [contradiction|].
    repeat split; reflexivity.
  - intros D strategy s msg Hfl.
    rewrite lockOutboundCapacity_eq, Hfl. reflexivity.
Qed.

End Outbound.

Lemma outbound_grant_then_lock_witness :
  exists s1 s2,
    FlowControlByteCapacity.releaseOutboundCapacity
      (Sample.sendMoreExtended 0 1000) (Sample.byteLedger 300000 300000 0)
    = Ok (tt, s1) /\
    mOutboundCapacity s1 = 1000 /\
    hasOutboundCapacity (Sample.floodMsg 904) s1 = Ok true /\
    lockOutboundCapacity (Sample.floodMsg 904) s1 = Ok (tt, s2) /\
    mOutboundCapacity s2 = 100.
Proof.
  apply (proj1 (@outbound_grant_then_lock Sample.Message _)
           (Sample.byteLedger 300000 300000 0)
           (Sample.sendMoreExtended 0 1000) (Sample.floodMsg 904));
    reflexivity.
Defined.

Lemma releaseOutboundCapacity_wraps_witness :
  FlowControlByteCapacity.releaseOutboundCapacity
    (Sample.sendMoreExtended 0 1)
    (Sample.byteLedger 300000 300000 (2 ^ 64 - 1))
  = Ok (tt, Sample.byteLedger 300000 300000 0).
Proof.
  refine (proj1 (proj2 (@releaseOutboundCapacity_wraps Sample.Message _))
            (Sample.byteLedger 300000 300000 (2 ^ 64 - 1))
            (Sample.sendMoreExtended 0 1) _ _).
  - reflexivity.
  - cbn. lia.
Defined.

(** ** Raising the flood limit *)

Section TxSizeIncrease.
Context {M : Type}.
Context `{StellarMessageOps M}.

Local Abbreviation ByteLedger :=
  (FlowControlCapacity M FlowControlByteCapacity.Fields).

Lemma handleTxSizeIncrease_eq (increase : Z) (s : ByteLedger) :
  FlowControlByteCapacity.handleTxSizeIncrease increase s =
    Ok (tt,
        setSelf (FlowControlByteCapacity.raiseFloodLimit increase (self s))
          (setFloodCapacity (add64 (mFloodCapacity (mCapacity s)) increase)
             s)).
Proof. reflexivity. Qed.

(** C6, without overflow.  On a byte-based ledger whose flood limit is at
    least the live flood capacity, and whose flood limit plus [increase]
    still fits 64 bits, [handleTxSizeIncrease] returns, has added exactly
    [increase] to the live flood capacity and to the flood limit, has left
    the total capacity and its limit as they were (absent stays absent), and
    the limit is still at least the live flood capacity. *)
Theorem handleTxSizeIncrease_spec (increase : Z) (s : ByteLedger) :
  is_u32 increase ->
  0 <= mFloodCapacity (mCapacity s) <= mFloodCapacity (capacityLimits s) ->
  mFloodCapacity (capacityLimits s) + increase < 2 ^ 64 ->
  exists s',
    FlowControlByteCapacity.handleTxSizeIncrease increase s = Ok (tt, s') /\
    mFloodCapacity (mCapacity s') = mFloodCapacity (mCapacity s) + increase /\
    mFloodCapacity (capacityLimits s')
    = mFloodCapacity (capacityLimits s) + increase /\
    mTotalCapacity (mCapacity s') = mTotalCapacity (mCapacity s) /\
    mTotalCapacity (capacityLimits s') = mTotalCapacity (capacityLimits s) /\
    mFloodCapacity (mCapacity s') <= mFloodCapacity (capacityLimits s') /\
    mOutboundCapacity s' = mOutboundCapacity s.
Proof.
  intros [Hinc _] Hle Hfit.
  eexists. split; [apply handleTxSizeIncrease_eq|].
  unfold capacityLimits in *. cbn in *.
  unfold FlowControlByteCapacity.getCapacityLimits in *.
  rewrite !add64_exact by lia.
  repeat split; try reflexivity. lia.
Qed.

End TxSizeIncrease.

Lemma handleTxSizeIncrease_spec_witness :
  exists s',
    FlowControlByteCapacity.handleTxSizeIncrease 1000
      (Sample.byteLedger 300000 100 0) = Ok (tt, s') /\
    mFloodCapacity (mCapacity s') = 100 + 1000 /\
    mFloodCapacity (capacityLimits s') = 300000 + 1000 /\
    mTotalCapacity (mCapacity s') = None /\
    mTotalCapacity (capacityLimits s') = None /\
    mFloodCapacity (mCapacity s') <= mFloodCapacity (capacityLimits s') /\
    mOutboundCapacity s' = 0.
Proof.
  apply (@handleTxSizeIncrease_spec Sample.Message _ 1000
           (Sample.byteLedger 300000 100 0)).
  - unfold is_u32. lia.
  - cbn. lia.
  - cbn. lia.
Defined.

(** C6 as stated fails where the addition overflows: with the flood limit
    at [2^64 - 1] and the live flood capacity at 100, an increase of 1 wraps
    the limit to 0 and leaves it below the live flood capacity 101. *)
Lemma handleTxSizeIncrease_overflow_counterexample :
  mFloodCapacity (mCapacity (Sample.byteLedger (2 ^ 64 - 1) 100 0))
  <= mFloodCapacity (capacityLimits (Sample.byteLedger (2 ^ 64 - 1) 100 0)) /\
  FlowControlByteCapacity.handleTxSizeIncrease 1
    (Sample.byteLedger (2 ^ 64 - 1) 100 0)
  = Ok (tt, Sample.byteLedger 0 101 0) /\
  mFloodCapacity (capacityLimits (Sample.byteLedger 0 101 0))
  <> mFloodCapacity (capacityLimits (Sample.byteLedger (2 ^ 64 - 1) 100 0)) + 1 /\
  ~ (mFloodCapacity (mCapacity (Sample.byteLedger 0 101 0))
     <= mFloodCapacity (capacityLimits (Sample.byteLedger 0 101 0))).
Proof.
  split; [cbn; lia|].
  split; [reflexivity|].
  split; cbn; lia.
Qed.

(** ** Reading gate *)

Section CanRead.
Context {M : Type}.
Context `{StellarMessageOps M}.

(** No method of the base class makes a total capacity appear or
    disappear. *)
Lemma base_step_total_presence {D} `{CapacityStrategy M D}
    (s s' : FlowControlCapacity M D) :
  base_step s s' ->
  (mTotalCapacity (mCapacity s') = None <->
   mTotalCapacity (mCapacity s) = None).
Proof.
  intros [msg admitted s0 s1 Hstep | msg freed s0 s1 Hstep | msg s0 s1 Hstep].
  - rewrite lockLocalCapacity_eq in Hstep.
    destruct (checkCapacityInvariants s0); [|discriminate].
    destruct (msgResourceCount msg s0) as [c|]; [|discriminate].
    destruct (mTotalCapacity (mCapacity s0)) as [total|] eqn:Htotal;
      [destruct (c <=? total); [|discriminate]|];
      (destruct (isFloodMessage (mApp s0) msg);
       [destruct (mFloodCapacity (mCapacity s0) <? c)|]);
      injection Hstep as _ <-; cbn; rewrite ?Htotal; split; congruence.
  - rewrite releaseLocalCapacity_eq in Hstep.
    destruct (msgResourceCount msg s0) as [c|]; [|discriminate].
    destruct (checkCapacityInvariants (released msg c s0)); [|discriminate].
    injection Hstep as _ <-. cbn.
    destruct (mTotalCapacity (mCapacity s0)); split; congruence.
  - rewrite lockOutboundCapacity_eq in Hstep.
    destruct (isFloodMessage (mApp s0) msg).
    + destruct (msgResourceCount msg s0) as [c|]; [|discriminate].
      destruct (c <=? mOutboundCapacity s0); [|discriminate].
      injection Hstep as <-. reflexivity.
    + injection Hstep as <-. reflexivity.
Qed.

(** A byte-based ledger never has a total capacity. *)
Lemma byte_reachable_total_absent app remoteVersion s :
  byte_reachable app remoteVersion s -> mTotalCapacity (mCapacity s) = None.
Proof.
  induction 1 as [| s s' _ IH Hstep | s grant s' _ IH Hstep
                  | s increase s' _ IH Hstep].
  - reflexivity.
  - apply (base_step_total_presence Hstep). exact IH.
  - rewrite byte_releaseOutboundCapacity_eq in Hstep.
    destruct (isSendMoreExtended (type grant)); [|discriminate].
    destruct (_ =? 0); [discriminate|].
    injection Hstep as <-. exact IH.
  - rewrite handleTxSizeIncrease_eq in Hstep.
    injection Hstep as <-. exact IH.
Qed.

(** A count-based ledger always has one. *)
Lemma message_reachable_total_present app s :
  message_reachable app s ->
  exists total, mTotalCapacity (mCapacity s) = Some total.
Proof.
  induction 1 as [| s s' _ IH Hstep | s grant s' _ IH Hstep].
  - cbn. eauto.
  - destruct IH as [total Htotal].
    destruct (mTotalCapacity (mCapacity s')) as [total'|] eqn:Htotal';
      [eauto|].
    apply (base_step_total_presence Hstep) in Htotal'. congruence.
  - rewrite message_releaseOutboundCapacity_eq in Hstep.
    destruct (_ || _); [|discriminate].
    injection Hstep as <-. exact IH.
Qed.

(** C5.  [canRead] of a byte-based ledger answers [true] in every state the
    ledger can be in, and in every state without a total capacity; it aborts
    on a state with one, and never answers [false].  A count-based ledger
    has a total capacity in every state it can be in; its [canRead] answers
    [true] exactly when that capacity is above 0 and [false] when it is 0,
    and aborts on a state without one. *)
Theorem canRead_spec :
  (forall app remoteVersion s,
      byte_reachable app remoteVersion s ->
      FlowControlByteCapacity.canRead s = Ok true) /\
  (forall s : FlowControlCapacity M FlowControlByteCapacity.Fields,
      (mTotalCapacity (mCapacity s) = None ->
       FlowControlByteCapacity.canRead s = Ok true) /\
      (mTotalCapacity (mCapacity s) <> None ->
       FlowControlByteCapacity.canRead s = Abort) /\
      FlowControlByteCapacity.canRead s <> Ok false) /\
  (forall app s,
      message_reachable app s ->
      exists total,
        mTotalCapacity (mCapacity s) = Some total /\
        FlowControlMessageCapacity.canRead s = Ok (0 <? total)) /\
  (forall (s : FlowControlCapacity M FlowControlMessageCapacity.Fields) total,
      mTotalCapacity (mCapacity s) = Some total ->
      (FlowControlMessageCapacity.canRead s = Ok true <-> 0 < total) /\
      (total = 0 -> FlowControlMessageCapacity.canRead s = Ok false)) /\
  (forall s : FlowControlCapacity M FlowControlMessageCapacity.Fields,
      mTotalCapacity (mCapacity s) = None ->
      FlowControlMessageCapacity.canRead s = Abort).
Proof.
  split; [|split; [|split; [|split]]].
  - intros app remoteVersion s Hs.
    unfold FlowControlByteCapacity.canRead.
    rewrite (byte_reachable_total_absent Hs). reflexivity.
  - intros s. unfold FlowControlByteCapacity.canRead.
    destruct (mTotalCapacity (mCapacity s)); repeat split; congruence.
  - intros app s Hs.
    destruct (message_reachable_total_present Hs) as [total Htotal].
    exists total. unfold FlowControlMessageCapacity.canRead.
    rewrite Htotal. split; reflexivity.
  - intros s total Htotal.
    unfold FlowControlMessageCapacity.canRead. rewrite Htotal.
    split.
    + destruct (Z.ltb_spec 0 total); split; intros Hx;
        try reflexivity; try lia; discriminate.
    + intros ->. reflexivity.
  - intros s Hnone. unfold FlowControlMessageCapacity.canRead.
    rewrite Hnone. reflexivity.
Qed.

End CanRead.

Lemma canRead_spec_witness :
  FlowControlByteCapacity.canRead
    (FlowControlByteCapacity.create (Sample.app 5 10 300000 35 30) 35)
  = Ok true /\
  (FlowControlMessageCapacity.canRead (Sample.countLedger 0 5 0) = Ok true
   <-> 0 < 5).
Proof.
  split.
  - apply (proj1 (@canRead_spec Sample.Message _)
             (Sample.app 5 10 300000 35 30) 35).
    apply byte_created.
  - apply (proj1 (proj2 (proj2 (proj2 (@canRead_spec Sample.Message _))))
             (Sample.countLedger 0 5 0) 5).
    reflexivity.
Defined.

(** ** The count-based ledger under paired locks and releases *)

Section CountBased.
Context {M : Type}.
Context `{StellarMessageOps M}.
Variable app : Application M.

Local Abbreviation CountLedger :=
  (FlowControlCapacity M FlowControlMessageCapacity.Fields).
Local Abbreviation floodLimit := (PEER_FLOOD_READING_CAPACITY (getConfig app)).
Local Abbreviation totalLimit := (PEER_READING_CAPACITY (getConfig app)).

Local Abbreviation ledger flood total out :=
  ({| mApp := app;
      mCapacity := {| mFloodCapacity := flood; mTotalCapacity := Some total |};
      mOutboundCapacity := out;
      self := FlowControlMessageCapacity.NoFields |} : CountLedger).

Lemma message_checkCapacityInvariants flood total out :
  flood <= floodLimit -> total <= totalLimit ->
  checkCapacityInvariants (ledger flood total out) = Ok tt.
Proof.
  intros Hf Ht. unfold checkCapacityInvariants, capacityLimits. cbn.
  destruct (Z.leb_spec flood floodLimit); [|lia].
  destruct (Z.leb_spec total totalLimit); [reflexivity|lia].
Qed.

Lemma message_lockLocalCapacity flood total out msg :
  0 <= flood <= floodLimit -> 1 <= total <= totalLimit ->
  is_u64 floodLimit -> is_u64 totalLimit ->
  lockLocalCapacity msg (ledger flood total out) =
    if isFloodMessage app msg then
      if flood <? 1 then Ok (false, ledger flood (total - 1) out)
      else Ok (true, ledger (flood - 1) (total - 1) out)
    else Ok (true, ledger flood (total - 1) out).
Proof.
  intros Hf Ht [_ HF] [_ HT].
  rewrite lockLocalCapacity_eq, message_checkCapacityInvariants by lia.
  unfold msgResourceCount. cbn.
  destruct (Z.leb_spec 1 total); [|lia].
  unfold setFloodCapacity, setTotalCapacity, setCapacity. cbn.
  rewrite (@sub64_exact total 1) by lia.
  destruct (isFloodMessage app msg); [|reflexivity].
  destruct (Z.ltb_spec flood 1); [reflexivity|].
  rewrite (@sub64_exact flood 1) by lia. reflexivity.
Qed.

Lemma message_lockLocalCapacity_exhausted flood out msg :
  lockLocalCapacity msg (ledger flood 0 out) = Abort.
Proof.
  rewrite lockLocalCapacity_eq. unfold msgResourceCount. cbn.
  destruct (checkCapacityInvariants _) as [[]|]; reflexivity.
Qed.

Lemma message_releaseLocalCapacity flood total out msg :
  let flood' := if isFloodMessage app msg then flood + 1 else flood in
  0 <= flood -> flood' <= floodLimit ->
  0 <= total -> total + 1 <= totalLimit ->
  is_u64 floodLimit -> is_u64 totalLimit ->
  releaseLocalCapacity msg (ledger flood total out) =
    Ok (if isFloodMessage app msg then 1 else 0,
        ledger flood' (total + 1) out).
Proof.
  intros flood' Hf Hf' Ht Ht' [_ HF] [_ HT]. subst flood'.
  rewrite releaseLocalCapacity_eq. unfold msgResourceCount, released. cbn.
  unfold setCapacity. cbn.
  rewrite (@add64_exact total 1) by lia.
  destruct (isFloodMessage app msg).
  - rewrite (@add64_exact flood 1) by lia.
    rewrite message_checkCapacityInvariants by lia. reflexivity.
  - rewrite message_checkCapacityInvariants by lia. reflexivity.
Qed.

(** The flood messages among the pending ones. *)
Local Abbreviation pendingFlood pending :=
  (Z.of_nat (length (filter (isFloodMessage app) pending))).

Lemma pending_split (before after : list M) msg :
  Z.of_nat (length (before ++ msg :: after))
  = Z.of_nat (length (before ++ after)) + 1 /\
  pendingFlood (before ++ msg :: after)
  = pendingFlood (before ++ after)
    + (if isFloodMessage app msg then 1 else 0).
Proof.
  rewrite !filter_app, !length_app. cbn.
  destruct (isFloodMessage app msg); cbn; lia.
Qed.

(** What the pending messages account for: each holds one unit of the total
    capacity, each flood one also one unit of the flood capacity; a refused
    lock keeps its unit of total capacity. *)
Lemma paired_accounting (s : CountLedger) pending :
  is_u64 floodLimit -> is_u64 totalLimit ->
  paired (FlowControlMessageCapacity.create app) s pending ->
  exists flood total,
    s = ledger flood total 0 /\
    0 <= flood /\ 0 <= total /\
    flood + pendingFlood pending = floodLimit /\
    total + Z.of_nat (length pending) <= totalLimit.
Proof.
  intros HF HT Hp.
  induction Hp as [| s pending msg s' _ IH Hlock
                   | s pending msg s' _ IH Hlock
                   | s before msg after freed s' _ IH Hrel].
  - exists floodLimit, totalLimit. unfold is_u64 in *.
    repeat split; cbn; lia.
  - destruct IH as (flood & total & -> & Hf & Ht & Hfl & Htl).
    destruct (Z.eq_dec total 0) as [-> | Hnz];
      [rewrite message_lockLocalCapacity_exhausted in Hlock; discriminate|].
    rewrite message_lockLocalCapacity in Hlock by (assumption || lia).
    cbn [filter length].
    destruct (isFloodMessage app msg).
    + destruct (Z.ltb_spec flood 1); [discriminate|].
      injection Hlock as <-.
      exists (flood - 1), (total - 1). cbn [length].
      repeat split; lia.
    + injection Hlock as <-.
      exists flood, (total - 1). repeat split; lia.
  - destruct IH as (flood & total & -> & Hf & Ht & Hfl & Htl).
    destruct (Z.eq_dec total 0) as [-> | Hnz];
      [rewrite message_lockLocalCapacity_exhausted in Hlock; discriminate|].
    rewrite message_lockLocalCapacity in Hlock by (assumption || lia).
    destruct (isFloodMessage app msg).
    + destruct (Z.ltb_spec flood 1); [|discriminate].
      injection Hlock as <-.
      exists flood, (total - 1). repeat split; lia.
    + discriminate.
  - destruct IH as (flood & total & -> & Hf & Ht & Hfl & Htl).
    destruct (pending_split before after msg) as [Hlen Hcount].
    rewrite Hlen in Htl. rewrite Hcount in Hfl.
    rewrite message_releaseLocalCapacity in Hrel
      by (assumption || destruct (isFloodMessage app msg); lia).
    injection Hrel as _ <-.
    exists (if isFloodMessage app msg then flood + 1 else flood), (total + 1).
    split; [reflexivity|].
    destruct (isFloodMessage app msg); repeat split; lia.
Qed.

(** C3.  On a count-based ledger, in every object reached from the freshly
    constructed one by locks and by releases of admitted, still locked
    messages, the flood capacity lies between 0 and the flood limit and the
    total capacity between 0 and the total limit.  Along the way no release
    of a pending message aborts, and a lock aborts only when [canRead]
    does not answer [true]. *)
Theorem count_capacity_bounds (s : CountLedger) (pending : list M) :
  is_u64 floodLimit -> is_u64 totalLimit ->
  paired (FlowControlMessageCapacity.create app) s pending ->
  (exists total,
      mTotalCapacity (mCapacity s) = Some total /\
      0 <= mFloodCapacity (mCapacity s) <= floodLimit /\
      0 <= total <= totalLimit) /\
  (forall before msg after,
      pending = before ++ msg :: after ->
      exists freed s', releaseLocalCapacity msg s = Ok (freed, s')) /\
  (forall msg,
      FlowControlMessageCapacity.canRead s = Ok true ->
      exists admitted s', lockLocalCapacity msg s = Ok (admitted, s')).
Proof.
  intros HF HT Hp.
  destruct (paired_accounting HF HT Hp)
    as (flood & total & -> & Hf & Ht & Hfl & Htl).
  split; [|split].
  - exists total. cbn. repeat split; lia.
  - intros before msg after ->.
    destruct (pending_split before after msg) as [Hlen Hcount].
    rewrite Hlen in Htl. rewrite Hcount in Hfl.
    rewrite message_releaseLocalCapacity
      by (assumption || destruct (isFloodMessage app msg); lia).
    eauto.
  - intros msg Hread. cbn in Hread.
    destruct (Z.ltb_spec 0 total); [|discriminate].
    rewrite message_lockLocalCapacity by (assumption || lia).
    destruct (isFloodMessage app msg); [|eauto].
    destruct (flood <? 1); eauto.
Qed.

(** C1, as the code has it.  With flood limit 5 and total limit 10, locking
    five flood messages on a fresh count-based ledger succeeds five times
    and leaves flood capacity 0 and total capacity 5; a sixth flood message
    is refused, the flood capacity stays 0, and the total capacity, taken
    before the flood check, is 4. *)
Theorem six_flood_locks (m1 m2 m3 m4 m5 m6 : M) :
  floodLimit = 5 -> totalLimit = 10 ->
  Forall (fun msg => isFloodMessage app msg = true) [m1; m2; m3; m4; m5; m6] ->
  exists s5 s6,
    lockAll [m1; m2; m3; m4; m5] (FlowControlMessageCapacity.create app)
    = Ok ([true; true; true; true; true], s5) /\
    mCapacity s5 = {| mFloodCapacity := 0; mTotalCapacity := Some 5 |} /\
    lockLocalCapacity m6 s5 = Ok (false, s6) /\
    mCapacity s6 = {| mFloodCapacity := 0; mTotalCapacity := Some 4 |}.
Proof.
  intros HF HT Hall.
  repeat match goal with
         | Hx : Forall _ (_ :: _) |- _ => inversion_clear Hx
         end.
  assert (HF64 : is_u64 floodLimit) by (rewrite HF; unfold is_u64; lia).
  assert (HT64 : is_u64 totalLimit) by (rewrite HT; unfold is_u64; lia).
  assert (Hstep : forall msg flood total,
             isFloodMessage app msg = true ->
             1 <= flood <= 5 -> 1 <= total <= 10 ->
             lockLocalCapacity msg (ledger flood total 0)
             = Ok (true, ledger (flood - 1) (total - 1) 0)).
  { intros msg flood total Hfl Hf Ht.
    rewrite message_lockLocalCapacity, Hfl by (assumption || lia).
    destruct (Z.ltb_spec flood 1); [lia|reflexivity]. }
  exists (ledger 0 5 0), (ledger 0 4 0).
  unfold FlowControlMessageCapacity.create,
    FlowControlMessageCapacity.getCapacityLimits.
  rewrite HF, HT.
  split; [|split; [reflexivity|split; [|reflexivity]]].
  - repeat (eapply lockAll_cons; [apply Hstep; [assumption|lia|lia]|]).
    reflexivity.
  - rewrite message_lockLocalCapacity by (assumption || lia).
    match goal with
    | Hx : isFloodMessage app m6 = true |- _ => rewrite Hx
    end.
    reflexivity.
Qed.

End CountBased.

Lemma count_capacity_bounds_witness :
  (exists total,
      mTotalCapacity (mCapacity (Sample.countLedger 4 9 0)) = Some total /\
      0 <= mFloodCapacity (mCapacity (Sample.countLedger 4 9 0)) <= 5 /\
      0 <= total <= 10) /\
  (forall before msg after,
      [Sample.floodMsg 904] = before ++ msg :: after ->
      exists freed s',
        releaseLocalCapacity msg (Sample.countLedger 4 9 0)
        = Ok (freed, s')) /\
  (forall msg,
      FlowControlMessageCapacity.canRead (Sample.countLedger 4 9 0)
      = Ok true ->
      exists admitted s',
        lockLocalCapacity msg (Sample.countLedger 4 9 0)
        = Ok (admitted, s')).
Proof.
  apply (@count_capacity_bounds Sample.Message
           (Sample.app 5 10 300000 35 30)
           (Sample.countLedger 4 9 0) [Sample.floodMsg 904]).
  - unfold is_u64. cbn. lia.
  - unfold is_u64. cbn. lia.
  - apply (paired_admitted (s := Sample.countLedger 5 10 0)
             (pending := []) (Sample.floodMsg 904)).
    + apply paired_init.
    + reflexivity.
Defined.

Lemma six_flood_locks_witness :
  exists s5 s6,
    lockAll [Sample.floodMsg 100; Sample.floodMsg 200; Sample.floodMsg 300;
             Sample.floodMsg 400; Sample.floodMsg 500]
      (FlowControlMessageCapacity.create (Sample.app 5 10 300000 35 30))
    = Ok ([true; true; true; true; true], s5) /\
    mCapacity s5 = {| mFloodCapacity := 0; mTotalCapacity := Some 5 |} /\
    lockLocalCapacity (Sample.floodMsg 600) s5 = Ok (false, s6) /\
    mCapacity s6 = {| mFloodCapacity := 0; mTotalCapacity := Some 4 |}.
Proof.
  apply (@six_flood_locks Sample.Message (Sample.app 5 10 300000 35 30)).
  - reflexivity.
  - reflexivity.
  - repeat constructor.
Defined.

(** C1 as stated fails at the sixth lock: it returns [false] with the flood
    capacity still 0, but the total capacity has gone from 5 to 4. *)
Lemma sixth_flood_lock_counterexample :
  lockAll [Sample.floodMsg 100; Sample.floodMsg 200; Sample.floodMsg 300;
           Sample.floodMsg 400; Sample.floodMsg 500]
    (FlowControlMessageCapacity.create (Sample.app 5 10 300000 35 30))
  = Ok ([true; true; true; true; true], Sample.countLedger 0 5 0) /\
  lockLocalCapacity (Sample.floodMsg 600) (Sample.countLedger 0 5 0)
  = Ok (false, Sample.countLedger 0 4 0) /\
  mTotalCapacity (mCapacity (Sample.countLedger 0 4 0))
  <> mTotalCapacity (mCapacity (Sample.countLedger 0 5 0)).
Proof.
  split; [reflexivity|]. split; [reflexivity|]. discriminate.
Qed.

(** ** Runs on explicit ledgers *)

(** The first flood message on a fresh count-based ledger with limits 5 and
    10 is admitted and takes one unit of each capacity. *)
Example first_flood_lock :
  lockLocalCapacity (Sample.floodMsg 100)
    (FlowControlMessageCapacity.create (Sample.app 5 10 300000 35 30))
  = Ok (true, Sample.countLedger 4 9 0).
Proof. reflexivity. Qed.

(** A lock with no total capacity left hits the assertion
    [*mCapacity.mTotalCapacity >= msgResources]. *)
Example lock_without_total_capacity :
  lockLocalCapacity (Sample.floodMsg 100) (Sample.countLedger 3 0 0) = Abort.
Proof. reflexivity. Qed.

(** A release of a flood message that no lock admitted, on a ledger whose
    flood capacity is at its limit, fails the closing check of the
    invariants. *)
Example release_of_unlocked_message :
  releaseLocalCapacity (Sample.floodMsg 100) (Sample.countLedger 5 9 0)
  = Abort.
Proof. reflexivity. Qed.

(** A sender that locks more outbound capacity than it was granted hits the
    assertion of [lockOutboundCapacity]. *)
Example lock_outbound_beyond_grant :
  lockOutboundCapacity (Sample.floodMsg 904) (Sample.byteLedger 300000 0 100)
  = Abort.
Proof. reflexivity. Qed.

(** * Further properties of the ledger *)

(** ** The capacity invariants as a proposition *)

Section Invariants.
Context {M D : Type}.
Context `{StellarMessageOps M}.
Context `{strategy : CapacityStrategy M D}.
Context `{laws : !CapacityStrategyLaws strategy}.

Local Abbreviation Ledger := (FlowControlCapacity M D).

Lemma checkCapacityInvariants_Ok (s : Ledger) :
  checkCapacityInvariants s = Ok tt <->
  mFloodCapacity (mCapacity s) <= mFloodCapacity (capacityLimits s) /\
  match mTotalCapacity (capacityLimits s), mTotalCapacity (mCapacity s) with
  | Some limit, Some total => total <= limit
  | None, None => True
  | _, _ => False
  end.
Proof.
  unfold checkCapacityInvariants.
  destruct (Z.leb_spec (mFloodCapacity (mCapacity s))
              (mFloodCapacity (capacityLimits s))).
  - destruct (mTotalCapacity (capacityLimits s)) as [limit|],
      (mTotalCapacity (mCapacity s)) as [total|];
      try (split; [discriminate | intros [_ []]]);
      try (split; [intros _; split; [assumption|exact I] | reflexivity]).
    destruct (Z.leb_spec total limit); split;
      try discriminate; try reflexivity; intros; try split; try lia.
  - split; [discriminate | intros [Hle _]; lia].
Qed.

Lemma u64_le x : 0 <= x -> u64 x <= x.
Proof. intros Hx. unfold u64. apply Z.mod_le; lia. Qed.

(** What a lock that returns has done to the object. *)
Lemma lockLocalCapacity_returns (s s' : Ledger) (msg : M) admitted :
  lockLocalCapacity msg s = Ok (admitted, s') ->
  exists c,
    msgResourceCount msg s = Ok c /\ is_u64 c /\
    checkCapacityInvariants s = Ok tt /\
    mApp s' = mApp s /\ self s' = self s /\
    mOutboundCapacity s' = mOutboundCapacity s /\
    mTotalCapacity (mCapacity s')
    = option_map (fun total => sub64 total c) (mTotalCapacity (mCapacity s)) /\
    (forall total, mTotalCapacity (mCapacity s) = Some total -> c <= total) /\
    admitted
    = negb (isFloodMessage (mApp s) msg && (mFloodCapacity (mCapacity s) <? c)) /\
    mFloodCapacity (mCapacity s')
    = (if isFloodMessage (mApp s) msg && negb (mFloodCapacity (mCapacity s) <? c)
       then sub64 (mFloodCapacity (mCapacity s)) c
       else mFloodCapacity (mCapacity s)).
Proof.
  intros Hlock. rewrite lockLocalCapacity_eq in Hlock.
  destruct (checkCapacityInvariants s) as [[]|]; [|discriminate].
  destruct (msgResourceCount msg s) as [c|] eqn:Hc; [|discriminate].
  exists c. split; [reflexivity|].
  split; [eapply getMsgResourceCount_u64; exact Hc|].
  split; [reflexivity|].
  destruct (mTotalCapacity (mCapacity s)) as [total|] eqn:Htotal;
    [destruct (Z.leb_spec c total); [|discriminate]|];
    (destruct (isFloodMessage (mApp s) msg);
     [destruct (mFloodCapacity (mCapacity s) <? c)|]);
    injection Hlock as <- <-; cbn; rewrite ?Htotal;
    repeat split; try reflexivity; intros; try congruence;
    match goal with
    | Hx : Some _ = Some _ |- _ => injection Hx as <-; assumption
    end.
Qed.

Lemma lockLocalCapacity_invariants (s s' : Ledger) (msg : M) admitted :
  lockLocalCapacity msg s = Ok (admitted, s') ->
  checkCapacityInvariants s' = Ok tt /\
  mFloodCapacity (mCapacity s') <= Z.max 0 (mFloodCapacity (mCapacity s)).
Proof.
  intros Hlock.
  destruct (lockLocalCapacity_returns _ _ Hlock)
    as (c & _ & [Hc0 _] & Hinv & Happ & Hself & _ & Htot & Hle & _ & Hfl).
  apply checkCapacityInvariants_Ok in Hinv. destruct Hinv as [Hf Ht].
  assert (Hflood : mFloodCapacity (mCapacity s')
                   <= Z.max 0 (mFloodCapacity (mCapacity s))).
  { rewrite Hfl.
    destruct (isFloodMessage (mApp s) msg); cbn; [|lia].
    destruct (Z.ltb_spec (mFloodCapacity (mCapacity s)) c); cbn; [lia|].
    unfold sub64.
    pose proof (@u64_le (mFloodCapacity (mCapacity s) - c)). lia. }
  split; [|exact Hflood].
  apply checkCapacityInvariants_Ok.
  unfold capacityLimits in *. rewrite Happ, Hself, Htot.
  split.
  - rewrite Hfl.
    destruct (isFloodMessage (mApp s) msg); cbn; [|lia].
    destruct (Z.ltb_spec (mFloodCapacity (mCapacity s)) c); cbn; [lia|].
    unfold sub64.
    pose proof (@u64_le (mFloodCapacity (mCapacity s) - c)). lia.
  - destruct (mTotalCapacity (getCapacityLimits (mApp s) (self s)))
      as [limit|], (mTotalCapacity (mCapacity s)) as [total|]; cbn;
      try exact Ht.
    specialize (Hle total eq_refl). unfold sub64.
    pose proof (@u64_le (total - c)). lia.
Qed.

End Invariants.

Section Returns.
Context {M D : Type}.
Context `{StellarMessageOps M}.
Context `{strategy : CapacityStrategy M D}.

Local Abbreviation Ledger := (FlowControlCapacity M D).

(** What a release that returns has done to the object. *)
Lemma releaseLocalCapacity_returns (s s' : Ledger) (msg : M) freed :
  releaseLocalCapacity msg s = Ok (freed, s') ->
  exists c,
    msgResourceCount msg s = Ok c /\
    s' = released msg c s /\
    checkCapacityInvariants s' = Ok tt /\
    freed = (if isFloodMessage (mApp s) msg then c else 0).
Proof.
  intros Hrel. rewrite releaseLocalCapacity_eq in Hrel.
  destruct (msgResourceCount msg s) as [c|]; [|discriminate].
  destruct (checkCapacityInvariants (released msg c s)) as [[]|] eqn:Hinv;
    [|discriminate].
  injection Hrel as <- <-. exists c. repeat split. exact Hinv.
Qed.

(** What an outbound lock that returns has done to the object. *)
Lemma lockOutboundCapacity_returns (s s' : Ledger) (msg : M) :
  lockOutboundCapacity msg s = Ok (tt, s') ->
  (isFloodMessage (mApp s) msg = false /\ s' = s) \/
  (isFloodMessage (mApp s) msg = true /\
   exists c,
     msgResourceCount msg s = Ok c /\ c <= mOutboundCapacity s /\
     s' = setOutboundCapacity (sub64 (mOutboundCapacity s) c) s).
Proof.
  intros Hlock. rewrite lockOutboundCapacity_eq in Hlock.
  destruct (isFloodMessage (mApp s) msg).
  - right. split; [reflexivity|].
    destruct (msgResourceCount msg s) as [c|]; [|discriminate].
    destruct (Z.leb_spec c (mOutboundCapacity s)); [|discriminate].
    injection Hlock as <-. exists c. repeat split. assumption.
  - left. injection Hlock as <-. split; reflexivity.
Qed.

End Returns.

(** ** The invariants after a call *)

Section KeptInvariants.
Context {M D : Type}.
Context `{StellarMessageOps M}.
Context `{strategy : CapacityStrategy M D}.
Context `{laws : !CapacityStrategyLaws strategy}.

Local Abbreviation Ledger := (FlowControlCapacity M D).

(** X1.  Whatever the object was before, the object that a returning
    [lockLocalCapacity] or [releaseLocalCapacity] leaves passes
    [checkCapacityInvariants]: the lock checks on entry and, on [uint64_t]
    fields, only lowers the flood capacity; the release checks before it
    returns.  Both leave the capacity limits and the outbound counter as
    they were. *)
Theorem local_calls_leave_invariants (s s' : Ledger) (msg : M) :
  (forall admitted,
      lockLocalCapacity msg s = Ok (admitted, s') ->
      checkCapacityInvariants s' = Ok tt /\
      (0 <= mFloodCapacity (mCapacity s) ->
       mFloodCapacity (mCapacity s') <= mFloodCapacity (mCapacity s)) /\
      capacityLimits s' = capacityLimits s /\
      mOutboundCapacity s' = mOutboundCapacity s) /\
  (forall freed,
      releaseLocalCapacity msg s = Ok (freed, s') ->
      checkCapacityInvariants s' = Ok tt /\
      capacityLimits s' = capacityLimits s /\
      mOutboundCapacity s' = mOutboundCapacity s).
Proof.
  split.
  - intros admitted Hlock.
    destruct (lockLocalCapacity_invariants _ _ Hlock) as [Hinv Hflood].
    destruct (lockLocalCapacity_returns _ _ Hlock)
      as (c & _ & _ & _ & Happ & Hself & Hout & _).
    split; [exact Hinv|]. split; [lia|]. split; [|exact Hout].
    unfold capacityLimits. rewrite Happ, Hself. reflexivity.
  - intros freed Hrel.
    destruct (releaseLocalCapacity_returns _ _ Hrel) as (c & _ & -> & Hinv & _).
    repeat split. exact Hinv.
Qed.

End KeptInvariants.

Lemma local_calls_leave_invariants_witness :
  checkCapacityInvariants (Sample.countLedger 4 9 0) = Ok tt /\
  (0 <= mFloodCapacity (mCapacity (Sample.countLedger 5 10 0)) ->
   mFloodCapacity (mCapacity (Sample.countLedger 4 9 0))
   <= mFloodCapacity (mCapacity (Sample.countLedger 5 10 0))) /\
  capacityLimits (Sample.countLedger 4 9 0)
  = capacityLimits (Sample.countLedger 5 10 0) /\
  mOutboundCapacity (Sample.countLedger 4 9 0)
  = mOutboundCapacity (Sample.countLedger 5 10 0).
Proof.
  apply (proj1 (local_calls_leave_invariants
                  (Sample.countLedger 5 10 0) (Sample.countLedger 4 9 0)
                  (Sample.floodMsg 100)) true).
  reflexivity.
Defined.

(** ** Every state of a ledger *)

Section Reachable.
Context {M : Type}.
Context `{StellarMessageOps M}.
Variable app : Application M.

Local Abbreviation floodLimit := (PEER_FLOOD_READING_CAPACITY (getConfig app)).
Local Abbreviation totalLimit := (PEER_READING_CAPACITY (getConfig app)).

Lemma base_step_fixed {D} `{strategy : CapacityStrategy M D}
    `{laws : !CapacityStrategyLaws strategy} (s s' : FlowControlCapacity M D) :
  base_step s s' ->
  mApp s' = mApp s /\ self s' = self s /\
  (checkCapacityInvariants s = Ok tt -> checkCapacityInvariants s' = Ok tt) /\
  (capacity_u64 s -> capacity_u64 s') /\
  (is_u64 (mOutboundCapacity s) -> is_u64 (mOutboundCapacity s')).
Proof.
  intros [msg admitted s0 s1 Hstep | msg freed s0 s1 Hstep | msg s0 s1 Hstep].
  - destruct (lockLocalCapacity_invariants _ _ Hstep) as [Hinv _].
    destruct (lockLocalCapacity_returns _ _ Hstep)
      as (c & _ & _ & _ & Happ & Hself & Hout & Htot & _ & _ & Hfl).
    split; [exact Happ|]. split; [exact Hself|]. split; [intros _; exact Hinv|].
    split; [|rewrite Hout; auto].
    intros [Hf Ht]. split.
    + rewrite Hfl. destruct (_ && _); [apply u64_range | exact Hf].
    + rewrite Htot. intros total.
      destruct (mTotalCapacity (mCapacity s0)); cbn; [|discriminate].
      intros [= <-]. apply u64_range.
  - destruct (releaseLocalCapacity_returns _ _ Hstep) as (c & _ & -> & Hinv & _).
    split; [reflexivity|]. split; [reflexivity|]. split; [intros _; exact Hinv|].
    split; [|auto].
    intros [Hf Ht]. split; cbn.
    + destruct (isFloodMessage (mApp s0) msg); [apply u64_range | exact Hf].
    + intros total.
      destruct (mTotalCapacity (mCapacity s0)); [|discriminate].
      intros [= <-]. apply u64_range.
  - destruct (lockOutboundCapacity_returns _ _ Hstep)
      as [[_ ->] | [_ (c & _ & _ & ->)]].
    + split; [reflexivity|]. split; [reflexivity|]. split; [auto|].
      split; auto.
    + split; [reflexivity|]. split; [reflexivity|].
      split; [intros Hinv; exact Hinv|].
      split; [intros Hcap; exact Hcap|].
      intros _. apply u64_range.
Qed.

(** X2.  In every state that a count-based ledger reaches through its
    public methods, in any order, the application is the one it was
    constructed with, the total capacity is present, the flood capacity
    lies between 0 and [PEER_FLOOD_READING_CAPACITY], the total capacity
    between 0 and [PEER_READING_CAPACITY], and the outbound counter is a
    [uint64_t] value. *)
Theorem message_reachable_bounds
    (s : FlowControlCapacity M FlowControlMessageCapacity.Fields) :
  is_u64 floodLimit -> is_u64 totalLimit ->
  message_reachable app s ->
  mApp s = app /\
  (exists total,
      mTotalCapacity (mCapacity s) = Some total /\
      0 <= mFloodCapacity (mCapacity s) <= floodLimit /\
      0 <= total <= totalLimit) /\
  is_u64 (mOutboundCapacity s).
Proof.
  intros HF HT Hs.
  assert (Hall : mApp s = app /\ checkCapacityInvariants s = Ok tt /\
                 capacity_u64 s /\ is_u64 (mOutboundCapacity s)).
  { induction Hs as [| s s' _ IH Hstep | s grant s' _ IH Hstep].
    - split; [reflexivity|]. split.
      + apply checkCapacityInvariants_Ok. cbn. split; apply Z.le_refl.
      + split; [split; [exact HF | intros total [= <-]; exact HT]|].
        unfold is_u64. cbn. unfold initialOutboundCapacity. lia.
    - destruct IH as (Happ & Hinv & Hcap & Hout).
      destruct (base_step_fixed Hstep) as (Happ' & _ & Hinv' & Hcap' & Hout').
      rewrite Happ'. auto.
    - destruct IH as (Happ & Hinv & Hcap & Hout).
      rewrite message_releaseOutboundCapacity_eq in Hstep.
      destruct (_ || _); [|discriminate].
      injection Hstep as <-.
      split; [exact Happ|]. split; [exact Hinv|]. split; [exact Hcap|].
      apply u64_range. }
  destruct Hall as (Happ & Hinv & [[Hf0 _] Ht] & Hout).
  apply checkCapacityInvariants_Ok in Hinv.
  unfold capacityLimits in Hinv. rewrite Happ in Hinv. cbn in Hinv.
  destruct Hinv as [Hf Htl].
  split; [exact Happ|]. split; [|exact Hout].
  destruct (mTotalCapacity (mCapacity s)) as [total|]; [|contradiction].
  exists total. destruct (Ht total eq_refl) as [Ht0 _].
  repeat split; lia.
Qed.

(** X3.  In every state that a byte-based ledger reaches through its public
    methods, the application and the remote version are the ones it was
    constructed with, neither the capacity nor its limit has a total part,
    and the flood capacity and the outbound counter are [uint64_t] values,
    when the configured byte limit is one. *)
Theorem byte_reachable_fixed (remoteVersion : Z)
    (s : FlowControlCapacity M FlowControlByteCapacity.Fields) :
  is_u64 (flowControlBytesTotal app) ->
  byte_reachable app remoteVersion s ->
  mApp s = app /\
  FlowControlByteCapacity.mRemoteOverlayVersion (self s) = remoteVersion /\
  mTotalCapacity (mCapacity s) = None /\
  mTotalCapacity (capacityLimits s) = None /\
  is_u64 (mFloodCapacity (mCapacity s)) /\
  is_u64 (mFloodCapacity (capacityLimits s)) /\
  is_u64 (mOutboundCapacity s).
Proof.
  intros HB Hs.
  induction Hs as [| s s' _ IH Hstep | s grant s' _ IH Hstep
                   | s increase s' _ IH Hstep].
  - split; [reflexivity|]. split; [reflexivity|]. split; [reflexivity|].
    split; [reflexivity|]. split; [exact HB|]. split; [exact HB|].
    unfold is_u64. cbn. unfold initialOutboundCapacity. lia.
  - destruct IH as (Happ & Hv & Hnone & Hlim & Hf & Hl & Hout).
    destruct (base_step_fixed Hstep) as (Happ' & Hself' & _ & Hcap' & Hout').
    pose proof (proj2 (base_step_total_presence Hstep)) as Hpres.
    assert (Hcap : capacity_u64 s')
      by (apply Hcap'; split; [exact Hf|]; rewrite Hnone; discriminate).
    unfold capacityLimits in *. rewrite Happ', Hself'.
    split; [exact Happ|]. split; [exact Hv|].
    split; [apply Hpres; exact Hnone|]. split; [exact Hlim|].
    split; [exact (proj1 Hcap)|]. split; [exact Hl|]. apply Hout'. exact Hout.
  - destruct IH as (Happ & Hv & Hnone & Hlim & Hf & Hl & Hout).
    rewrite byte_releaseOutboundCapacity_eq in Hstep.
    destruct (isSendMoreExtended (type grant)); [|discriminate].
    destruct (_ =? 0); [discriminate|].
    injection Hstep as <-.
    split; [exact Happ|]. split; [exact Hv|]. split; [exact Hnone|].
    split; [exact Hlim|]. split; [exact Hf|]. split; [exact Hl|].
    apply u64_range.
  - destruct IH as (Happ & Hv & Hnone & Hlim & Hf & Hl & Hout).
    rewrite handleTxSizeIncrease_eq in Hstep.
    injection Hstep as <-.
    split; [exact Happ|]. split; [exact Hv|]. split; [exact Hnone|].
    split; [exact Hlim|]. split; [apply u64_range|].
    split; [apply u64_range|]. exact Hout.
Qed.

End Reachable.

Lemma message_reachable_bounds_witness :
  mApp (Sample.countLedger 4 9 0) = Sample.app 5 10 300000 35 30 /\
  (exists total,
      mTotalCapacity (mCapacity (Sample.countLedger 4 9 0)) = Some total /\
      0 <= mFloodCapacity (mCapacity (Sample.countLedger 4 9 0)) <= 5 /\
      0 <= total <= 10) /\
  is_u64 (mOutboundCapacity (Sample.countLedger 4 9 0)).
Proof.
  apply (@message_reachable_bounds Sample.Message _
           (Sample.app 5 10 300000 35 30) (Sample.countLedger 4 9 0)).
  - unfold is_u64. cbn. lia.
  - unfold is_u64. cbn. lia.
  - apply (message_base_step
             (s := FlowControlMessageCapacity.create
                     (Sample.app 5 10 300000 35 30))).
    + apply message_created.
    + apply (step_lockLocalCapacity (Sample.floodMsg 100) (admitted := true)).
      reflexivity.
Defined.

Lemma byte_reachable_fixed_witness :
  mApp (Sample.byteLedger 301000 301000 0) = Sample.app 5 10 300000 35 30 /\
  FlowControlByteCapacity.mRemoteOverlayVersion
    (self (Sample.byteLedger 301000 301000 0)) = 35 /\
  mTotalCapacity (mCapacity (Sample.byteLedger 301000 301000 0)) = None /\
  mTotalCapacity (capacityLimits (Sample.byteLedger 301000 301000 0)) = None /\
  is_u64 (mFloodCapacity (mCapacity (Sample.byteLedger 301000 301000 0))) /\
  is_u64 (mFloodCapacity (capacityLimits (Sample.byteLedger 301000 301000 0))) /\
  is_u64 (mOutboundCapacity (Sample.byteLedger 301000 301000 0)).
Proof.
  apply (@byte_reachable_fixed Sample.Message _
           (Sample.app 5 10 300000 35 30) 35
           (Sample.byteLedger 301000 301000 0)).
  - unfold is_u64. cbn. lia.
  - apply (byte_increased
             (s := FlowControlByteCapacity.create
                     (Sample.app 5 10 300000 35 30) 35) (increase := 1000)).
    + apply byte_created.
    + reflexivity.
Defined.

(** ** The byte-based ledger under paired locks and releases *)

Section ByteBased.
Context {M : Type}.
Context `{StellarMessageOps M}.
Variable app : Application M.
Variable remoteVersion : Z.

Local Abbreviation ByteLedger :=
  (FlowControlCapacity M FlowControlByteCapacity.Fields).
Local Abbreviation bytesTotal := (flowControlBytesTotal app).

(** The cost of a message on the ledgers of this section. *)
Local Abbreviation cost msg :=
  (msgBodySize (FIRST_VERSION_UPDATED_FLOW_CONTROL_ACCOUNTING app) msg
     remoteVersion (OVERLAY_PROTOCOL_VERSION (getConfig app))).

(** The bytes that the pending flood messages hold. *)
Local Abbreviation pendingBytes pending :=
  (fold_right Z.add 0
     (map (fun msg => if isFloodMessage app msg then cost msg else 0) pending)).

Local Abbreviation ledger flood :=
  ({| mApp := app;
      mCapacity := {| mFloodCapacity := flood; mTotalCapacity := None |};
      mOutboundCapacity := initialOutboundCapacity;
      self := {| FlowControlByteCapacity.mCapacityLimits :=
                   {| mFloodCapacity := bytesTotal; mTotalCapacity := None |};
                 FlowControlByteCapacity.mRemoteOverlayVersion :=
                   remoteVersion |} |} : ByteLedger).

Lemma cost_u64 msg : is_u64 (cost msg).
Proof. unfold msgBodySize. destruct (_ && _); apply u64_range. Qed.

Lemma pendingBytes_nonneg pending : 0 <= pendingBytes pending.
Proof.
  induction pending as [|msg pending IH]; cbn; [lia|].
  pose proof (cost_u64 msg) as [Hc _].
  destruct (isFloodMessage app msg); lia.
Qed.

Lemma pendingBytes_split (before after : list M) msg :
  pendingBytes (before ++ msg :: after)
  = pendingBytes (before ++ after)
    + (if isFloodMessage app msg then cost msg else 0).
Proof.
  induction before as [|m before IH]; cbn; [lia|].
  rewrite IH. lia.
Qed.

Lemma byte_lockLocalCapacity flood msg :
  remoteVersion <> 0 -> 0 <= flood <= bytesTotal -> is_u64 bytesTotal ->
  lockLocalCapacity msg (ledger flood) =
    if isFloodMessage app msg then
      if flood <? cost msg then Ok (false, ledger flood)
      else Ok (true, ledger (flood - cost msg))
    else Ok (true, ledger flood).
Proof.
  intros Hv Hf [_ HB].
  rewrite lockLocalCapacity_eq.
  replace (checkCapacityInvariants (ledger flood)) with (Ok tt : result unit)
    by (symmetry; apply checkCapacityInvariants_Ok; cbn; split; [lia|exact I]).
  unfold msgResourceCount. cbn.
  rewrite getMsgResourceCount_nonzero by exact Hv. cbn.
  destruct (isFloodMessage app msg); [|reflexivity].
  destruct (Z.ltb_spec flood (cost msg)); [reflexivity|].
  pose proof (cost_u64 msg) as [Hc _].
  unfold setFloodCapacity, setCapacity. cbn.
  rewrite sub64_exact by lia. reflexivity.
Qed.

Lemma byte_releaseLocalCapacity flood msg :
  let flood' := if isFloodMessage app msg then flood + cost msg else flood in
  remoteVersion <> 0 -> 0 <= flood -> flood' <= bytesTotal ->
  is_u64 bytesTotal ->
  releaseLocalCapacity msg (ledger flood) =
    Ok (if isFloodMessage app msg then cost msg else 0, ledger flood').
Proof.
  intros flood' Hv Hf Hf' [_ HB]. subst flood'.
  rewrite releaseLocalCapacity_eq. unfold msgResourceCount. cbn.
  rewrite getMsgResourceCount_nonzero by exact Hv. cbn.
  unfold released, setCapacity. cbn.
  pose proof (cost_u64 msg) as [Hc _].
  destruct (isFloodMessage app msg).
  - rewrite add64_exact by lia.
    match goal with
    | |- context [checkCapacityInvariants ?x] =>
        replace (checkCapacityInvariants x) with (Ok tt : result unit)
          by (symmetry; apply checkCapacityInvariants_Ok; cbn;
              split; [lia|exact I])
    end.
    reflexivity.
  - match goal with
    | |- context [checkCapacityInvariants ?x] =>
        replace (checkCapacityInvariants x) with (Ok tt : result unit)
          by (symmetry; apply checkCapacityInvariants_Ok; cbn;
              split; [lia|exact I])
    end.
    reflexivity.
Qed.

Lemma byte_paired_accounting (s : ByteLedger) pending :
  remoteVersion <> 0 -> is_u64 bytesTotal ->
  paired (FlowControlByteCapacity.create app remoteVersion) s pending ->
  exists flood,
    s = ledger flood /\ 0 <= flood /\ flood + pendingBytes pending = bytesTotal.
Proof.
  intros Hv HB Hp.
  induction Hp as [| s pending msg s' _ IH Hlock
                   | s pending msg s' _ IH Hlock
                   | s before msg after freed s' _ IH Hrel].
  - exists bytesTotal. unfold is_u64 in HB. repeat split; cbn; lia.
  - destruct IH as (flood & -> & Hf & Hsum).
    pose proof (pendingBytes_nonneg pending).
    rewrite byte_lockLocalCapacity in Hlock by (assumption || lia).
    cbn [map fold_right].
    destruct (isFloodMessage app msg).
    + destruct (Z.ltb_spec flood (cost msg)); [discriminate|].
      injection Hlock as <-. exists (flood - cost msg). repeat split; lia.
    + injection Hlock as <-. exists flood. repeat split; lia.
  - destruct IH as (flood & -> & Hf & Hsum).
    pose proof (pendingBytes_nonneg pending).
    rewrite byte_lockLocalCapacity in Hlock by (assumption || lia).
    destruct (isFloodMessage app msg).
    + destruct (Z.ltb_spec flood (cost msg)); [|discriminate].
      injection Hlock as <-. exists flood. repeat split; lia.
    + discriminate.
  - destruct IH as (flood & -> & Hf & Hsum).
    rewrite pendingBytes_split in Hsum.
    pose proof (pendingBytes_nonneg (before ++ after)).
    rewrite byte_releaseLocalCapacity in Hrel
      by (assumption || destruct (isFloodMessage app msg); lia).
    injection Hrel as _ <-.
    exists (if isFloodMessage app msg then flood + cost msg else flood).
    pose proof (cost_u64 msg) as [Hc _].
    split; [reflexivity|].
    destruct (isFloodMessage app msg); split; lia.
Qed.

(** X4.  On a byte-based ledger with a nonzero remote version, in every
    object reached from the constructed one by locks and by releases of
    admitted, still locked messages: the flood capacity plus the bytes of
    the pending flood messages is the configured byte limit, so the flood
    capacity lies between 0 and that limit; no release of a pending message
    aborts; no lock aborts, and a lock that refuses a message leaves the
    object exactly as it was. *)
Theorem byte_capacity_accounting (s : ByteLedger) (pending : list M) :
  remoteVersion <> 0 -> is_u64 bytesTotal ->
  paired (FlowControlByteCapacity.create app remoteVersion) s pending ->
  mFloodCapacity (mCapacity s) + pendingBytes pending = bytesTotal /\
  0 <= mFloodCapacity (mCapacity s) <= bytesTotal /\
  (forall before msg after,
      pending = before ++ msg :: after ->
      exists freed s', releaseLocalCapacity msg s = Ok (freed, s')) /\
  (forall msg,
      exists admitted s',
        lockLocalCapacity msg s = Ok (admitted, s') /\
        (admitted = false -> s' = s)).
Proof.
  intros Hv HB Hp.
  destruct (byte_paired_accounting Hv HB Hp) as (flood & -> & Hf & Hsum).
  pose proof (pendingBytes_nonneg pending) as Hpend.
  split; [exact Hsum|]. split; [cbn; lia|]. split.
  - intros before msg after ->.
    rewrite pendingBytes_split in Hsum.
    pose proof (pendingBytes_nonneg (before ++ after)).
    pose proof (cost_u64 msg) as [Hc _].
    rewrite byte_releaseLocalCapacity
      by (assumption || destruct (isFloodMessage app msg); lia).
    eauto.
  - intros msg.
    rewrite byte_lockLocalCapacity by (assumption || lia).
    destruct (isFloodMessage app msg);
      [destruct (flood <? cost msg)|];
      eexists; eexists; (split; [reflexivity|]);
      intros Hx; try discriminate; reflexivity.
Qed.

End ByteBased.

Lemma byte_capacity_accounting_witness :
  mFloodCapacity (mCapacity (Sample.byteLedger 300000 299100 0))
  + fold_right Z.add 0
      (map (fun msg =>
              if isFloodMessage (Sample.app 5 10 300000 35 30) msg
              then msgBodySize 30 msg 35 35 else 0)
           [Sample.floodMsg 904])
  = 300000 /\
  0 <= mFloodCapacity (mCapacity (Sample.byteLedger 300000 299100 0))
    <= 300000 /\
  (forall before msg after,
      [Sample.floodMsg 904] = before ++ msg :: after ->
      exists freed s',
        releaseLocalCapacity msg (Sample.byteLedger 300000 299100 0)
        = Ok (freed, s')) /\
  (forall msg,
      exists admitted s',
        lockLocalCapacity msg (Sample.byteLedger 300000 299100 0)
        = Ok (admitted, s') /\
        (admitted = false -> s' = Sample.byteLedger 300000 299100 0)).
Proof.
  apply (@byte_capacity_accounting Sample.Message _
           (Sample.app 5 10 300000 35 30) 35
           (Sample.byteLedger 300000 299100 0) [Sample.floodMsg 904]).
  - discriminate.
  - unfold is_u64. cbn. lia.
  - apply (paired_admitted
             (s := FlowControlByteCapacity.create
                     (Sample.app 5 10 300000 35 30) 35)
             (pending := []) (Sample.floodMsg 904)).
    + apply paired_init.
    + reflexivity.
Defined.

(** ** Sending against the granted capacity *)

Section OutboundBudget.
Context {M D : Type}.
Context `{StellarMessageOps M}.
Context `{strategy : CapacityStrategy M D}.
Context `{laws : !CapacityStrategyLaws strategy}.

Local Abbreviation Ledger := (FlowControlCapacity M D).

(** X5.  On a flood message [lockOutboundCapacity] returns exactly when
    [hasOutboundCapacity] answers [true]; the counter it leaves is the old
    counter minus the cost of the message, without wrap-around, and nothing
    else of the object has changed. *)
Theorem lockOutboundCapacity_within_grant (s : Ledger) (msg : M) :
  isFloodMessage (mApp s) msg = true ->
  is_u64 (mOutboundCapacity s) ->
  ((exists s', lockOutboundCapacity msg s = Ok (tt, s')) <->
   hasOutboundCapacity msg s = Ok true) /\
  (forall s',
      lockOutboundCapacity msg s = Ok (tt, s') ->
      exists c,
        msgResourceCount msg s = Ok c /\
        mOutboundCapacity s' = mOutboundCapacity s - c /\
        0 <= mOutboundCapacity s' <= mOutboundCapacity s /\
        s' = setOutboundCapacity (mOutboundCapacity s - c) s).
Proof.
  intros Hfl [Hout0 Hout1]. split.
  - rewrite lockOutboundCapacity_eq, Hfl. unfold hasOutboundCapacity.
    destruct (msgResourceCount msg s) as [c|].
    + destruct (c <=? mOutboundCapacity s); split;
        try reflexivity; try discriminate; eauto.
      intros [s' Hx]. discriminate.
    + split; [intros [s' Hx]|]; discriminate.
  - intros s' Hlock.
    destruct (lockOutboundCapacity_returns _ _ Hlock)
      as [[Hx _] | [_ (c & Hc & Hle & ->)]]; [congruence|].
    assert (Hc64 : is_u64 c) by (eapply getMsgResourceCount_u64; exact Hc).
    destruct Hc64 as [Hc0 _].
    exists c. rewrite sub64_exact by lia. cbn.
    repeat split; try assumption; lia.
Qed.

End OutboundBudget.

Lemma lockOutboundCapacity_within_grant_witness :
  exists c,
    msgResourceCount (Sample.floodMsg 904) (Sample.byteLedger 300000 300000 1000)
    = Ok c /\
    mOutboundCapacity (Sample.byteLedger 300000 300000 100) = 1000 - c /\
    0 <= mOutboundCapacity (Sample.byteLedger 300000 300000 100) <= 1000 /\
    Sample.byteLedger 300000 300000 100
    = setOutboundCapacity (1000 - c) (Sample.byteLedger 300000 300000 1000).
Proof.
  refine (proj2 (lockOutboundCapacity_within_grant
                   (Sample.byteLedger 300000 300000 1000)
                   (Sample.floodMsg 904) _ _)
            (Sample.byteLedger 300000 300000 100) _).
  - reflexivity.
  - unfold is_u64. cbn. lia.
  - reflexivity.
Defined.

Section CountOutbound.
Context {M : Type}.
Context `{StellarMessageOps M}.

Local Abbreviation CountLedger :=
  (FlowControlCapacity M FlowControlMessageCapacity.Fields).

Lemma message_lockOutboundCapacity_flood (s : CountLedger) msg :
  isFloodMessage (mApp s) msg = true ->
  is_u64 (mOutboundCapacity s) ->
  lockOutboundCapacity msg s =
    if 1 <=? mOutboundCapacity s
    then Ok (tt, setOutboundCapacity (mOutboundCapacity s - 1) s)
    else Abort.
Proof.
  intros Hfl [Hout0 Hout1].
  rewrite lockOutboundCapacity_eq, Hfl. unfold msgResourceCount. cbn.
  destruct (Z.leb_spec 1 (mOutboundCapacity s)); [|reflexivity].
  rewrite sub64_exact by lia. reflexivity.
Qed.

(** X6.  On a count-based ledger the outbound counter is a number of flood
    messages: locking the flood messages of a list one after the other
    returns exactly when the list is no longer than the counter, and then
    leaves the counter lowered by the length of the list. *)
Theorem message_outbound_budget (msgs : list M) (s : CountLedger) :
  Forall (fun msg => isFloodMessage (mApp s) msg = true) msgs ->
  is_u64 (mOutboundCapacity s) ->
  forEach lockOutboundCapacity msgs s =
    if Z.of_nat (length msgs) <=? mOutboundCapacity s
    then Ok (tt, setOutboundCapacity
                   (mOutboundCapacity s - Z.of_nat (length msgs)) s)
    else Abort.
Proof.
  revert s.
  induction msgs as [|msg msgs IH]; intros s Hall Hout.
  - cbn. unfold ret. destruct Hout as [Hout0 _].
    destruct (Z.leb_spec 0 (mOutboundCapacity s)); [|lia].
    rewrite Z.sub_0_r, setOutboundCapacity_same. reflexivity.
  - inversion_clear Hall as [|? ? Hfl Hrest].
    cbn [forEach length]. unfold bind at 1.
    rewrite message_lockOutboundCapacity_flood by assumption.
    destruct Hout as [Hout0 Hout1].
    destruct (Z.leb_spec 1 (mOutboundCapacity s)).
    + rewrite IH; [|exact Hrest|unfold is_u64; cbn; lia].
      cbn [mOutboundCapacity setOutboundCapacity].
      destruct (Z.leb_spec (Z.of_nat (length msgs)) (mOutboundCapacity s - 1));
        destruct (Z.leb_spec (Z.of_nat (S (length msgs))) (mOutboundCapacity s));
        try lia; [|reflexivity].
      unfold setOutboundCapacity. cbn. do 3 f_equal. lia.
    + destruct (Z.leb_spec (Z.of_nat (S (length msgs))) (mOutboundCapacity s));
        [lia|reflexivity].
Qed.

End CountOutbound.

Lemma message_outbound_budget_witness :
  forEach lockOutboundCapacity
    [Sample.floodMsg 100; Sample.floodMsg 200] (Sample.countLedger 5 10 2)
  = (if Z.of_nat 2 <=? 2
     then Ok (tt, setOutboundCapacity (2 - Z.of_nat 2)
                    (Sample.countLedger 5 10 2))
     else Abort).
Proof.
  apply (@message_outbound_budget Sample.Message
           [Sample.floodMsg 100; Sample.floodMsg 200]
           (Sample.countLedger 5 10 2)).
  - repeat constructor.
  - unfold is_u64. cbn. lia.
Defined.

(** ** The two ends of a connection *)

Section BothEnds.
Context {M : Type}.
Context `{StellarMessageOps M}.

Import FlowControlByteCapacity.

Lemma msgBodySize_swap threshold (msg : M) a b :
  msgBodySize threshold msg a b = msgBodySize threshold msg b a.
Proof. unfold msgBodySize. rewrite andb_comm. reflexivity. Qed.

(** X7.  The byte-based ledgers at the two ends of a connection, each
    recording the other's overlay version as its remote version, compute
    the same cost for every message: what the sender takes from its
    outbound counter is what the receiver takes from its flood capacity.
    Both versions have to be nonzero for the two computations to return. *)
Theorem byte_cost_agreement (appA appB : Application M) (dA dB : Fields)
    (msg : M) :
  FIRST_VERSION_UPDATED_FLOW_CONTROL_ACCOUNTING appA
  = FIRST_VERSION_UPDATED_FLOW_CONTROL_ACCOUNTING appB ->
  mRemoteOverlayVersion dA = OVERLAY_PROTOCOL_VERSION (getConfig appB) ->
  mRemoteOverlayVersion dB = OVERLAY_PROTOCOL_VERSION (getConfig appA) ->
  mRemoteOverlayVersion dA <> 0 ->
  mRemoteOverlayVersion dB <> 0 ->
  exists c,
    getMsgResourceCount appA dA msg = Ok c /\
    getMsgResourceCount appB dB msg = Ok c /\
    is_u64 c.
Proof.
  intros Hthr HA HB HvA HvB.
  rewrite !getMsgResourceCount_nonzero by assumption.
  rewrite Hthr, HA, HB, msgBodySize_swap.
  eexists. split; [reflexivity|]. split; [reflexivity|].
  unfold msgBodySize. destruct (_ && _); apply u64_range.
Qed.

End BothEnds.

Lemma byte_cost_agreement_witness :
  exists c,
    FlowControlByteCapacity.getMsgResourceCount
      (Sample.app 5 10 300000 35 30)
      {| FlowControlByteCapacity.mCapacityLimits :=
           {| mFloodCapacity := 300000; mTotalCapacity := None |};
         FlowControlByteCapacity.mRemoteOverlayVersion := 29 |}
      (Sample.floodMsg 904) = Ok c /\
    FlowControlByteCapacity.getMsgResourceCount
      (Sample.app 5 10 300000 29 30)
      {| FlowControlByteCapacity.mCapacityLimits :=
           {| mFloodCapacity := 300000; mTotalCapacity := None |};
         FlowControlByteCapacity.mRemoteOverlayVersion := 35 |}
      (Sample.floodMsg 904) = Ok c /\
    is_u64 c.
Proof.
  apply (@byte_cost_agreement Sample.Message _
           (Sample.app 5 10 300000 35 30) (Sample.app 5 10 300000 29 30));
    cbn; (reflexivity || discriminate).
Defined.

(** ** Credit grants *)

Section Grants.
Context {M : Type}.
Context `{StellarMessageOps M}.

Local Abbreviation CountLedger :=
  (FlowControlCapacity M FlowControlMessageCapacity.Fields).
Local Abbreviation ByteLedger :=
  (FlowControlCapacity M FlowControlByteCapacity.Fields).

(** X8.  [releaseOutboundCapacity] of the count-based ledger returns
    exactly on [SEND_MORE] and [SEND_MORE_EXTENDED] messages; that of the
    byte-based ledger exactly on [SEND_MORE_EXTENDED] messages when the
    recorded remote version is not 0.  On any other message it aborts.
    When it returns it has changed the outbound counter only. *)
Theorem releaseOutboundCapacity_accepts :
  (forall (s : CountLedger) (grant : M),
      ((exists s',
           FlowControlMessageCapacity.releaseOutboundCapacity grant s
           = Ok (tt, s')) <->
       type grant = SEND_MORE \/ type grant = SEND_MORE_EXTENDED) /\
      (forall s',
          FlowControlMessageCapacity.releaseOutboundCapacity grant s
          = Ok (tt, s') ->
          mCapacity s' = mCapacity s /\ mApp s' = mApp s /\ self s' = self s)) /\
  (forall (s : ByteLedger) (grant : M),
      ((exists s',
           FlowControlByteCapacity.releaseOutboundCapacity grant s
           = Ok (tt, s')) <->
       type grant = SEND_MORE_EXTENDED /\
       FlowControlByteCapacity.mRemoteOverlayVersion (self s) <> 0) /\
      (forall s',
          FlowControlByteCapacity.releaseOutboundCapacity grant s
          = Ok (tt, s') ->
          mCapacity s' = mCapacity s /\ mApp s' = mApp s /\ self s' = self s)).
Proof.
  split.
  - intros s grant. rewrite message_releaseOutboundCapacity_eq.
    destruct (type grant); cbn; split.
    + split; eauto.
    + intros s' [= <-]. repeat split.
    + split; eauto.
    + intros s' [= <-]. repeat split.
    + split; [intros [s' Hx]; discriminate | intros [Hx | Hx]; discriminate].
    + discriminate.
  - intros s grant. rewrite byte_releaseOutboundCapacity_eq.
    destruct (type grant); cbn;
      try (split; [split; [intros [s' Hx]; discriminate
                          | intros [Hx _]; discriminate]
                  | discriminate]).
    destruct (Z.eqb_spec
                (FlowControlByteCapacity.mRemoteOverlayVersion (self s)) 0).
    + split; [split; [intros [s' Hx]; discriminate
                     | intros [_ Hx]; contradiction]
             | discriminate].
    + split; [split; eauto|].
      intros s' [= <-]. repeat split.
Qed.

End Grants.

Lemma releaseOutboundCapacity_accepts_witness :
  (exists s',
      FlowControlMessageCapacity.releaseOutboundCapacity
        (Sample.sendMore 7) (Sample.countLedger 5 10 0) = Ok (tt, s')) /\
  ~ (exists s',
        FlowControlByteCapacity.releaseOutboundCapacity
          (Sample.sendMore 7) (Sample.byteLedger 300000 300000 0)
        = Ok (tt, s')).
Proof.
  split.
  - apply (proj1 (@releaseOutboundCapacity_accepts Sample.Message _)
             (Sample.countLedger 5 10 0) (Sample.sendMore 7)).
    left. reflexivity.
  - intros Hx.
    apply (proj2 (@releaseOutboundCapacity_accepts Sample.Message _)
             (Sample.byteLedger 300000 300000 0) (Sample.sendMore 7)) in Hx.
    destruct Hx as [Hx _]. discriminate.
Defined.

(** ** Point-to-point messages and limit changes on the byte-based ledger *)

Section ByteLedgerCalls.
Context {M : Type}.
Context `{StellarMessageOps M}.

Local Abbreviation ByteLedger :=
  (FlowControlCapacity M FlowControlByteCapacity.Fields).

(** X9.  A byte-based ledger does not account for messages that are not
    flood messages: on an object that passes the invariants, has no total
    capacity and a nonzero remote version, [lockLocalCapacity] admits such a
    message, [releaseLocalCapacity] reports 0 freed units, and both, like
    [lockOutboundCapacity], leave the object exactly as it was. *)
Theorem byte_ignores_point_to_point (s : ByteLedger) (msg : M) :
  isFloodMessage (mApp s) msg = false ->
  FlowControlByteCapacity.mRemoteOverlayVersion (self s) <> 0 ->
  mTotalCapacity (mCapacity s) = None ->
  checkCapacityInvariants s = Ok tt ->
  lockLocalCapacity msg s = Ok (true, s) /\
  releaseLocalCapacity msg s = Ok (0, s) /\
  lockOutboundCapacity msg s = Ok (tt, s).
Proof.
  intros Hfl Hv Hnone Hinv.
  assert (Hc : msgResourceCount msg s
               = Ok (msgBodySize
                       (FIRST_VERSION_UPDATED_FLOW_CONTROL_ACCOUNTING (mApp s))
                       msg
                       (FlowControlByteCapacity.mRemoteOverlayVersion (self s))
                       (OVERLAY_PROTOCOL_VERSION (getConfig (mApp s)))))
    by (apply getMsgResourceCount_nonzero; exact Hv).
  split; [|split].
  - rewrite lockLocalCapacity_eq, Hinv, Hc, Hnone, Hfl. reflexivity.
  - rewrite releaseLocalCapacity_eq, Hc.
    replace (released msg _ s) with s; [rewrite Hinv, Hfl; reflexivity|].
    unfold released, setCapacity. rewrite Hfl, Hnone.
    destruct s as [app [flood total] out d]. cbn in *. subst total.
    reflexivity.
  - rewrite lockOutboundCapacity_eq, Hfl. reflexivity.
Qed.

(** X10.  A limit change between the lock of a message and its release is
    safe on a byte-based ledger (one without total capacity, with its flood
    capacity a [uint64_t] value): when [lockLocalCapacity] admits a message,
    [handleTxSizeIncrease] follows, and the raised limit still fits 64
    bits, the release of the message returns, and the object is then the
    one that [handleTxSizeIncrease] alone makes of the object before the
    lock. *)
Theorem increase_between_lock_and_release (s s1 s2 : ByteLedger) (msg : M)
    (increase : Z) :
  is_u64 (mFloodCapacity (mCapacity s)) ->
  mTotalCapacity (mCapacity s) = None ->
  is_u32 increase ->
  mFloodCapacity (capacityLimits s) + increase < 2 ^ 64 ->
  lockLocalCapacity msg s = Ok (true, s1) ->
  FlowControlByteCapacity.handleTxSizeIncrease increase s1 = Ok (tt, s2) ->
  exists freed s3,
    releaseLocalCapacity msg s2 = Ok (freed, s3) /\
    FlowControlByteCapacity.handleTxSizeIncrease increase s = Ok (tt, s3) /\
    mFloodCapacity (mCapacity s3) = mFloodCapacity (mCapacity s) + increase /\
    mFloodCapacity (mCapacity s3) <= mFloodCapacity (capacityLimits s3).
Proof.
  intros [Hf0 Hf1] Hnone [Hd0 _] Hfit Hlock Hinc.
  rewrite handleTxSizeIncrease_eq in Hinc. injection Hinc as <-.
  rewrite lockLocalCapacity_eq in Hlock.
  destruct (checkCapacityInvariants s) as [[]|] eqn:Hinv; [|discriminate].
  apply checkCapacityInvariants_Ok in Hinv.
  destruct (msgResourceCount msg s) as [c|] eqn:Hc; [|discriminate].
  assert (Hc64 : is_u64 c)
    by (apply (getMsgResourceCount_u64 (mApp s) (self s) msg); exact Hc).
  destruct Hc64 as [Hc0 _].
  exists (if isFloodMessage (mApp s) msg then c else 0).
  eexists. split; [|split; [apply handleTxSizeIncrease_eq|]].
  - destruct s as [app [flood total] out [[limit limitTotal] remote]].
    unfold capacityLimits, msgResourceCount in *. cbn in *.
    unfold FlowControlByteCapacity.getCapacityLimits,
      FlowControlByteCapacity.getMsgResourceCount in *. cbn in *.
    destruct Hinv as [Hle Hpresence]. subst total.
    destruct limitTotal as [limitTotal|]; [contradiction|].
    cbn in Hlock;
      (destruct (isFloodMessage app msg) eqn:Hfl;
       [destruct (Z.ltb_spec flood c); [discriminate|]|]);
      injection Hlock as <-;
      rewrite releaseLocalCapacity_eq;
      unfold msgResourceCount, released, checkCapacityInvariants,
        capacityLimits, FlowControlByteCapacity.raiseFloodLimit, setSelf,
        setFloodCapacity, setTotalCapacity, setCapacity; cbn;
      unfold FlowControlByteCapacity.getCapacityLimits,
        FlowControlByteCapacity.getMsgResourceCount; cbn;
      rewrite Hc, ?Hfl; cbn;
      rewrite ?(@sub64_exact flood c) by lia;
      rewrite ?(@add64_exact (flood - c) increase) by lia;
      rewrite ?(@add64_exact (flood - c + increase) c) by lia;
      rewrite ?(@add64_exact flood increase) by lia;
      rewrite ?(@add64_exact limit increase) by lia;
      replace (flood - c + increase + c) with (flood + increase) by lia;
      repeat match goal with
             | |- context [?a <=? ?b] =>
                 destruct (Z.leb_spec a b); [|lia]
             end;
      reflexivity.
  - destruct Hinv as [Hle _]. unfold capacityLimits in *. cbn in *.
    unfold FlowControlByteCapacity.getCapacityLimits in *.
    rewrite !add64_exact by lia. lia.
Qed.

End ByteLedgerCalls.

Lemma byte_ignores_point_to_point_witness :
  lockLocalCapacity (Sample.plainMsg 500) (Sample.byteLedger 300000 1000 0)
  = Ok (true, Sample.byteLedger 300000 1000 0) /\
  releaseLocalCapacity (Sample.plainMsg 500) (Sample.byteLedger 300000 1000 0)
  = Ok (0, Sample.byteLedger 300000 1000 0) /\
  lockOutboundCapacity (Sample.plainMsg 500) (Sample.byteLedger 300000 1000 0)
  = Ok (tt, Sample.byteLedger 300000 1000 0).
Proof.
  apply (byte_ignores_point_to_point
           (Sample.byteLedger 300000 1000 0) (Sample.plainMsg 500)).
  - reflexivity.
  - discriminate.
  - reflexivity.
  - reflexivity.
Defined.

Lemma increase_between_lock_and_release_witness :
  exists freed s3,
    releaseLocalCapacity (Sample.floodMsg 904)
      (Sample.byteLedger 301000 1100 0) = Ok (freed, s3) /\
    FlowControlByteCapacity.handleTxSizeIncrease 1000
      (Sample.byteLedger 300000 1000 0) = Ok (tt, s3) /\
    mFloodCapacity (mCapacity s3) = 1000 + 1000 /\
    mFloodCapacity (mCapacity s3) <= mFloodCapacity (capacityLimits s3).
Proof.
  apply (increase_between_lock_and_release
           (s1 := Sample.byteLedger 300000 100 0)
           (s2 := Sample.byteLedger 301000 1100 0)
           (increase := 1000)
           (Sample.byteLedger 300000 1000 0) (Sample.floodMsg 904)).
  - unfold is_u64. cbn. lia.
  - reflexivity.
  - unfold is_u32. lia.
  - cbn. lia.
  - reflexivity.
  - reflexivity.
Defined.

(** ** Messages in processing on the count-based ledger *)

Section CountPending.
Context {M : Type}.
Context `{StellarMessageOps M}.
Variable app : Application M.

Local Abbreviation CountLedger :=
  (FlowControlCapacity M FlowControlMessageCapacity.Fields).
Local Abbreviation floodLimit := (PEER_FLOOD_READING_CAPACITY (getConfig app)).
Local Abbreviation totalLimit := (PEER_READING_CAPACITY (getConfig app)).
Local Abbreviation pendingFlood pending :=
  (Z.of_nat (length (filter (isFloodMessage app) pending))).

(** X11.  On a count-based ledger, under locks and releases of admitted,
    still locked messages, at most [PEER_READING_CAPACITY] messages and at
    most [PEER_FLOOD_READING_CAPACITY] flood messages are locked at any
    time; the flood capacity is exactly the flood limit minus the number of
    locked flood messages, so it is back at the limit when none is locked;
    and a lock that returns refuses its message exactly when the message is
    a flood message and [PEER_FLOOD_READING_CAPACITY] flood messages are
    locked. *)
Theorem count_pending_bounds (s : CountLedger) (pending : list M) :
  is_u64 floodLimit -> is_u64 totalLimit ->
  paired (FlowControlMessageCapacity.create app) s pending ->
  Z.of_nat (length pending) <= totalLimit /\
  pendingFlood pending <= floodLimit /\
  mFloodCapacity (mCapacity s) = floodLimit - pendingFlood pending /\
  (forall msg admitted s',
      lockLocalCapacity msg s = Ok (admitted, s') ->
      admitted
      = negb (isFloodMessage app msg && (pendingFlood pending =? floodLimit))).
Proof.
  intros HF HT Hp.
  destruct (paired_accounting HF HT Hp)
    as (flood & total & -> & Hf & Ht & Hfl & Htl).
  split; [lia|]. split; [lia|]. split; [cbn; lia|].
  intros msg admitted s' Hlock.
  destruct (Z.eq_dec total 0) as [-> | Hnz];
    [rewrite message_lockLocalCapacity_exhausted in Hlock; discriminate|].
  rewrite message_lockLocalCapacity in Hlock by (assumption || lia).
  destruct (isFloodMessage app msg); cbn.
  - destruct (Z.ltb_spec flood 1); injection Hlock as <- _.
    + destruct (Z.eqb_spec (pendingFlood pending) floodLimit);
        [reflexivity|lia].
    + destruct (Z.eqb_spec (pendingFlood pending) floodLimit);
        [lia|reflexivity].
  - injection Hlock as <- _. reflexivity.
Qed.

End CountPending.

Lemma count_pending_bounds_witness :
  Z.of_nat (length [Sample.floodMsg 904]) <= 10 /\
  Z.of_nat (length (filter (isFloodMessage (Sample.app 5 10 300000 35 30))
                      [Sample.floodMsg 904])) <= 5 /\
  mFloodCapacity (mCapacity (Sample.countLedger 4 9 0))
  = 5 - Z.of_nat (length (filter (isFloodMessage
                                    (Sample.app 5 10 300000 35 30))
                            [Sample.floodMsg 904])) /\
  (forall msg admitted s',
      lockLocalCapacity msg (Sample.countLedger 4 9 0) = Ok (admitted, s') ->
      admitted
      = negb (isFloodMessage (Sample.app 5 10 300000 35 30) msg
              && (Z.of_nat (length (filter (isFloodMessage
                                              (Sample.app 5 10 300000 35 30))
                                      [Sample.floodMsg 904])) =? 5))).
Proof.
  apply (@count_pending_bounds Sample.Message
           (Sample.app 5 10 300000 35 30)
           (Sample.countLedger 4 9 0) [Sample.floodMsg 904]).
  - unfold is_u64. cbn. lia.
  - unfold is_u64. cbn. lia.
  - apply (paired_admitted (s := Sample.countLedger 5 10 0)
             (pending := []) (Sample.floodMsg 904)).
    + apply paired_init.
    + reflexivity.
Defined.

(** ** Admission and sending, for either strategy *)

Section EitherStrategy.
Context {M D : Type}.
Context `{StellarMessageOps M}.
Context `{strategy : CapacityStrategy M D}.
Context `{laws : !CapacityStrategyLaws strategy}.

Local Abbreviation Ledger := (FlowControlCapacity M D).

Lemma costs_nonneg (s : Ledger) msgs costs :
  Forall2 (fun msg c => msgResourceCount msg s = Ok c) msgs costs ->
  0 <= fold_right Z.add 0 costs.
Proof.
  induction 1 as [|msg c msgs costs Hc _ IH]; cbn; [lia|].
  apply (getMsgResourceCount_u64 (mApp s) (self s) msg) in Hc.
  destruct Hc. lia.
Qed.

(** X12.  Locking the flood messages of a list for sending, one after the
    other, returns exactly when the sum of their costs is within the
    outbound counter, and then leaves the counter lowered by that sum and
    the rest of the object as it was; otherwise one of the locks hits the
    assertion. *)
Theorem outbound_budget (msgs : list M) (costs : list Z) (s : Ledger) :
  Forall (fun msg => isFloodMessage (mApp s) msg = true) msgs ->
  Forall2 (fun msg c => msgResourceCount msg s = Ok c) msgs costs ->
  is_u64 (mOutboundCapacity s) ->
  forEach lockOutboundCapacity msgs s =
    if fold_right Z.add 0 costs <=? mOutboundCapacity s
    then Ok (tt, setOutboundCapacity
                   (mOutboundCapacity s - fold_right Z.add 0 costs) s)
    else Abort.
Proof.
  intros Hall Hcosts. revert costs s Hall Hcosts.
  induction msgs as [|msg msgs IH]; intros costs s Hall Hcosts Hout;
    inversion Hcosts as [|? c ? costs' Hc Hrest]; subst.
  - cbn. unfold ret. destruct Hout as [Hout0 _].
    destruct (Z.leb_spec 0 (mOutboundCapacity s)); [|lia].
    rewrite Z.sub_0_r, setOutboundCapacity_same. reflexivity.
  - inversion_clear Hall as [|? ? Hfl Hflrest].
    pose proof (@costs_nonneg s msgs costs' Hrest) as Hsum.
    assert (Hc64 : is_u64 c)
      by (apply (getMsgResourceCount_u64 (mApp s) (self s) msg); exact Hc).
    destruct Hc64 as [Hc0 _]. destruct Hout as [Hout0 Hout1].
    cbn [forEach fold_right]. unfold bind at 1.
    rewrite lockOutboundCapacity_eq, Hfl, Hc.
    destruct (Z.leb_spec c (mOutboundCapacity s)).
    + rewrite sub64_exact by lia.
      rewrite (IH costs' (setOutboundCapacity (mOutboundCapacity s - c) s));
        [|exact Hflrest|exact Hrest|unfold is_u64; cbn; lia].
      cbn [mOutboundCapacity setOutboundCapacity].
      destruct (Z.leb_spec (fold_right Z.add 0 costs')
                  (mOutboundCapacity s - c));
        destruct (Z.leb_spec (c + fold_right Z.add 0 costs')
                    (mOutboundCapacity s));
        try lia; [|reflexivity].
      unfold setOutboundCapacity. cbn. do 3 f_equal. lia.
    + destruct (Z.leb_spec (c + fold_right Z.add 0 costs')
                  (mOutboundCapacity s)); [lia|reflexivity].
Qed.

(** X13.  A lock that returns refuses its message exactly when the message
    is a flood message whose cost is above the flood capacity.  A refused
    lock leaves the flood capacity as it was but has taken the cost from the
    total capacity, when there is one; an admitted flood message has paid
    its cost from both, without wrap-around on [uint64_t] fields. *)
Theorem lockLocalCapacity_admission (s s' : Ledger) (msg : M) admitted :
  capacity_u64 s ->
  lockLocalCapacity msg s = Ok (admitted, s') ->
  exists c,
    msgResourceCount msg s = Ok c /\
    (admitted = false <->
     isFloodMessage (mApp s) msg = true /\ mFloodCapacity (mCapacity s) < c) /\
    mTotalCapacity (mCapacity s')
    = option_map (fun total => total - c) (mTotalCapacity (mCapacity s)) /\
    mFloodCapacity (mCapacity s')
    = (if admitted && isFloodMessage (mApp s) msg
       then mFloodCapacity (mCapacity s) - c
       else mFloodCapacity (mCapacity s)) /\
    0 <= mFloodCapacity (mCapacity s').
Proof.
  intros [[Hf0 Hf1] Ht] Hlock.
  destruct (lockLocalCapacity_returns _ _ Hlock)
    as (c & Hc & [Hc0 _] & _ & _ & _ & _ & Htot & Hle & Hadm & Hfl).
  exists c. split; [exact Hc|].
  rewrite Htot, Hfl, Hadm.
  destruct (isFloodMessage (mApp s) msg); cbn.
  - destruct (Z.ltb_spec (mFloodCapacity (mCapacity s)) c); cbn.
    + split; [split; [auto | trivial]|]. split; [|split; [reflexivity|lia]].
      destruct (mTotalCapacity (mCapacity s)) as [total|] eqn:Htotal;
        [|reflexivity].
      cbn. destruct (Ht total eq_refl). specialize (Hle total eq_refl).
      rewrite sub64_exact by lia. reflexivity.
    + split; [split; [discriminate | intros [_ Hx]; lia]|].
      rewrite sub64_exact by lia.
      split; [|split; [reflexivity|lia]].
      destruct (mTotalCapacity (mCapacity s)) as [total|] eqn:Htotal;
        [|reflexivity].
      cbn. destruct (Ht total eq_refl). specialize (Hle total eq_refl).
      rewrite sub64_exact by lia. reflexivity.
  - split; [split; [discriminate | intros [Hx _]; discriminate]|].
    rewrite ?andb_false_r.
    split; [|split; [reflexivity|lia]].
    destruct (mTotalCapacity (mCapacity s)) as [total|] eqn:Htotal;
      [|reflexivity].
    cbn. destruct (Ht total eq_refl). specialize (Hle total eq_refl).
    rewrite sub64_exact by lia. reflexivity.
Qed.

End EitherStrategy.

Lemma outbound_budget_witness :
  forEach lockOutboundCapacity
    [Sample.floodMsg 904; Sample.floodMsg 104]
    (Sample.byteLedger 300000 300000 1000)
  = (if fold_right Z.add 0 [900; 100] <=? 1000
     then Ok (tt, setOutboundCapacity (1000 - fold_right Z.add 0 [900; 100])
                    (Sample.byteLedger 300000 300000 1000))
     else Abort).
Proof.
  apply (outbound_budget
           (msgs := [Sample.floodMsg 904; Sample.floodMsg 104])
           (costs := [900; 100])
           (Sample.byteLedger 300000 300000 1000)).
  - repeat constructor.
  - repeat constructor.
  - unfold is_u64. cbn. lia.
Defined.

Lemma lockLocalCapacity_admission_witness :
  exists c,
    msgResourceCount (Sample.floodMsg 904) (Sample.countLedger 0 5 0) = Ok c /\
    (false = false <->
     isFloodMessage (mApp (Sample.countLedger 0 5 0)) (Sample.floodMsg 904)
     = true /\
     mFloodCapacity (mCapacity (Sample.countLedger 0 5 0)) < c) /\
    mTotalCapacity (mCapacity (Sample.countLedger 0 4 0))
    = option_map (fun total => total - c)
        (mTotalCapacity (mCapacity (Sample.countLedger 0 5 0))) /\
    mFloodCapacity (mCapacity (Sample.countLedger 0 4 0))
    = (if false && isFloodMessage (mApp (Sample.countLedger 0 5 0))
                     (Sample.floodMsg 904)
       then mFloodCapacity (mCapacity (Sample.countLedger 0 5 0)) - c
       else mFloodCapacity (mCapacity (Sample.countLedger 0 5 0))) /\
    0 <= mFloodCapacity (mCapacity (Sample.countLedger 0 4 0)).
Proof.
  apply (lockLocalCapacity_admission
           (s := Sample.countLedger 0 5 0) (s' := Sample.countLedger 0 4 0)
           (Sample.floodMsg 904) (admitted := false)).
  - split; [unfold is_u64; cbn; lia|].
    intros total [= <-]. unfold is_u64. lia.
  - reflexivity.
Defined.
